(** * Barber appointment platform: the authentication backend

    A shallow embedding of the Express backend's authentication path
    (services/auth.service.ts, controllers/auth.controller.ts,
    utils/jwt.utils.ts, middlewares/error.middleware.ts) over an explicit
    store made of the Prisma [User] table and the Redis key space, and of
    the slot computation of the design document.

    Time is a logical clock in seconds (the unit of the JWT [iat]/[exp]
    claims and of the Redis [EX] option).  The two libraries the service
    calls, bcryptjs and jsonwebtoken, are interfaces ([BcryptLib],
    [JwtLib]) carrying the laws the service relies on. *)

From stdpp Require Import gmap strings list fin_maps sorting.
From Stdlib Require Import ZArith Lia Ascii BinaryString.

Open Scope Z_scope.
Open Scope string_scope.
Open Scope list_scope.

(** ** Thrown values and results *)

(** A JavaScript [Error]: the two properties the backend reads. *)
Record JsError := mkError { err_name : string; err_message : string }.

(** [new Error(msg)]: the name of a plain Error is "Error". *)
Definition new_Error (msg : string) : JsError :=
  {| err_name := "Error"; err_message := msg |}.

(** The outcome of an async function: a resolved value or a thrown error. *)
Inductive Result (A : Type) : Type :=
| Ok (a : A)
| Throw (e : JsError).
Arguments Ok {A} a.
Arguments Throw {A} e.

(** ** Rows and objects *)

(** The Prisma [Role] enum. *)
Inductive Role := CUSTOMER | BARBER | ADMIN.

Definition role_name (r : Role) : string :=
  match r with
  | CUSTOMER => "CUSTOMER"
  | BARBER => "BARBER"
  | ADMIN => "ADMIN"
  end.

(** A row of the [User] table: the fields of the frontend's [User]
    interface (lib/api/auth.ts) and the [password] column the service
    writes and reads. *)
Record User := mkUser {
  id : string;
  email : string;
  password : string;
  firstName : string;
  lastName : string;
  phone : option string;
  role : Role;
  emailVerified : bool;
  createdAt : Z;
  updatedAt : Z
}.

(** [RegisterData] and [LoginData] of auth.service.ts.  The optional role
    of a registration is CUSTOMER or BARBER. *)
Inductive RegRole := RegCustomer | RegBarber.

Record RegisterData := mkRegisterData {
  rd_email : string;
  rd_password : string;
  rd_firstName : string;
  rd_lastName : string;
  rd_phone : option string;
  rd_role : option RegRole
}.

Record LoginData := mkLoginData {
  ld_email : string;
  ld_password : string
}.

(** [data.role || 'CUSTOMER'] *)
Definition role_or_customer (r : option RegRole) : Role :=
  match r with
  | Some RegBarber => BARBER
  | Some RegCustomer => CUSTOMER
  | None => CUSTOMER
  end.

(** A JavaScript property value, as far as user rows hold them. *)
Inductive JsVal :=
| JStr (s : string)
| JBool (b : bool)
| JNum (n : Z)
| JNull.

(** The object Prisma returns for a row: one own property per column. *)
Definition row_object (u : User) : gmap string JsVal :=
  <["id" := JStr (id u)]>
  (<["email" := JStr (email u)]>
  (<["password" := JStr (password u)]>
  (<["firstName" := JStr (firstName u)]>
  (<["lastName" := JStr (lastName u)]>
  (<["phone" := match phone u with Some p => JStr p | None => JNull end]>
  (<["role" := JStr (role_name (role u))]>
  (<["emailVerified" := JBool (emailVerified u)]>
  (<["createdAt" := JNum (createdAt u)]>
  (<["updatedAt" := JNum (updatedAt u)]> ∅))))))))).

(** [const { password, ...userWithoutPassword } = user]: the rest object
    holds every own property but [password]. *)
Definition without_password (o : gmap string JsVal) : gmap string JsVal :=
  delete "password" o.


(** ** JWT payloads and tokens (utils/jwt.utils.ts) *)

Record JwtPayload := mkPayload {
  userId : string;
  p_email : string;
  p_role : string
}.

Record Tokens := mkTokens {
  accessToken : string;
  refreshToken : string
}.

(** What [jwt.verify] does with a token: it returns the payload, or throws
    one of jsonwebtoken's two errors. *)
Inductive JwtVerdict :=
| JwtOk (p : JwtPayload)
| JwtExpired
| JwtInvalid.

(** jsonwebtoken.  [jwt_sign p secret iat ttl] is [jwt.sign(p, secret,
    { expiresIn: ttl })] called when the clock reads [iat];
    [jwt_verify t secret now] is [jwt.verify(t, secret)] called at [now].
    The laws: a token verifies under the secret that signed it until
    [iat + ttl], and is expired from then on; the empty string is no
    token ("jwt must be provided").  Signing is total: the secrets of
    [config] are taken to be set. *)
Class JwtLib := {
  jwt_sign : JwtPayload → string → Z → Z → string;
  jwt_verify : string → string → Z → JwtVerdict;
  jwt_verify_sign : ∀ p secret iat ttl now,
    jwt_verify (jwt_sign p secret iat ttl) secret now =
    if bool_decide (now < iat + ttl) then JwtOk p else JwtExpired;
  jwt_verify_empty : ∀ secret now, jwt_verify "" secret now = JwtInvalid
}.

(** bcryptjs.  [bcrypt_hash pw rounds salt] is [bcrypt.hash(pw, rounds)]
    with the salt it drew; [bcrypt_compare pw h] is [bcrypt.compare(pw, h)].
    The law: a password matches its own hash. *)
Class BcryptLib := {
  bcrypt_hash : string → nat → string → string;
  bcrypt_compare : string → string → bool;
  bcrypt_compare_hash : ∀ pw rounds salt,
    bcrypt_compare pw (bcrypt_hash pw rounds salt) = true
}.

(** [config] of config/env: the two signing secrets. *)
Record Config := mkConfig {
  jwtSecret : string;
  jwtRefreshSecret : string
}.

(** ** The store: the User table and Redis *)

(** A Redis string key: its value and the instant it expires. *)
Record RedisEntry := mkEntry {
  r_value : string;
  r_expires_at : Z
}.

Record World := mkWorld {
  users : list User;
  redis : gmap string RedisEntry
}.

(** [prisma.user.findUnique({ where: { email } })] *)
Definition findUnique_email (e : string) (w : World) : option User :=
  List.find (fun u => bool_decide (email u = e)) (users w).

(** [prisma.user.findUnique({ where: { id } })] *)
Definition findUnique_id (i : string) (w : World) : option User :=
  List.find (fun u => bool_decide (id u = i)) (users w).

Definition prisma_error : JsError :=
  {| err_name := "PrismaClientKnownRequestError";
     err_message := "Unique constraint failed" |}.

(** [prisma.user.create({ data })]: the row is inserted unless it breaks
    one of the two unique constraints [findUnique] rests on (id, email). *)
Definition user_create (u : User) (w : World) : Result User * World :=
  if bool_decide (findUnique_id (id u) w = None ∧ findUnique_email (email u) w = None)
  then (Ok u, {| users := users w ++ [u]; redis := redis w |})
  else (Throw prisma_error, w).

(** Seven days and fifteen minutes, in seconds. *)
Definition SEVEN_DAYS : Z := 7 * 24 * 60 * 60.
Definition FIFTEEN_MINUTES : Z := 15 * 60.

(** The template literal [`refresh_token:${userId}`]. *)
Definition refresh_key (uid : string) : string := "refresh_token:" +:+ uid.

(** [redis.set(key, value, { EX: seconds })] at time [now]. *)
Definition redis_set (key value : string) (ex now : Z) (w : World) : World :=
  {| users := users w;
     redis := <[key := {| r_value := value; r_expires_at := now + ex |}]> (redis w) |}.

(** [redis.get(key)] at time [now]: an expired key reads as null. *)
Definition redis_get (key : string) (now : Z) (w : World) : option string :=
  match redis w !! key with
  | Some e => if bool_decide (now < r_expires_at e) then Some (r_value e) else None
  | None => None
  end.

(** [redis.del(key)] *)
Definition redis_del (key : string) (w : World) : World :=
  {| users := users w; redis := delete key (redis w) |}.

(** ** HTTP responses *)

(** The JSON body of a response: the backend's bodies are objects with
    some of the keys [message], [details], [user] and [tokens]. *)
Record Body := mkBody {
  b_message : option string;
  b_details : option string;
  b_user : option (gmap string JsVal);
  b_tokens : option Tokens
}.

Record Response := mkResponse {
  status : Z;
  body : Body
}.

(** [{ message: m }] *)
Definition message_body (m : string) : Body :=
  {| b_message := Some m; b_details := None; b_user := None; b_tokens := None |}.

(** What a controller method does with a request: it sends a response, or
    hands the error it caught to [next]. *)
Inductive Outcome :=
| Respond (r : Response)
| Next (e : JsError).

(** ** middlewares/error.middleware.ts *)

(** [errorHandler]: [node_env] is [process.env.NODE_ENV]. *)
Definition errorHandler (node_env : option string) (error : JsError) : Response :=
  if bool_decide (err_name error = "ValidationError") then
    {| status := 400;
       body := {| b_message := Some "Validation error";
                  b_details := Some (err_message error);
                  b_user := None; b_tokens := None |} |}
  else if bool_decide (err_name error = "UnauthorizedError") then
    {| status := 401; body := message_body "Unauthorized" |}
  else if bool_decide (err_name error = "PrismaClientKnownRequestError") then
    {| status := 400;
       body := {| b_message := Some "Database error";
                  b_details := Some "Invalid request data";
                  b_user := None; b_tokens := None |} |}
  else
    {| status := 500;
       body := {| b_message := Some "Internal server error";
                  b_details := if bool_decide (node_env = Some "development")
                               then Some (err_message error) else None;
                  b_user := None; b_tokens := None |} |}.

(** [app.use(errorHandler)] after the routes: an error passed to [next]
    is answered by the error handler. *)
Definition finish (node_env : option string) (o : Outcome) : Response :=
  match o with
  | Respond r => r
  | Next e => errorHandler node_env e
  end.

(** ** services/auth.service.ts and controllers/auth.controller.ts *)

(** What the database fills in when a row is created: the generated id
    and the columns [RegisterData] does not carry. *)
Record RowDefaults := mkRowDefaults {
  new_id : string;
  new_emailVerified : bool;
  new_createdAt : Z;
  new_updatedAt : Z
}.

(** The value [register] and [login] resolve to. *)
Record AuthResult := mkAuthResult {
  ar_user : gmap string JsVal;
  ar_tokens : Tokens
}.

(** The payload the service builds from a row. *)
Definition payload_of (u : User) : JwtPayload :=
  {| userId := id u; p_email := email u; p_role := role_name (role u) |}.

Definition TokenExpiredError : JsError :=
  {| err_name := "TokenExpiredError"; err_message := "jwt expired" |}.

Definition JsonWebTokenError : JsError :=
  {| err_name := "JsonWebTokenError"; err_message := "invalid token" |}.

(** [jwt.verify] returns the payload or throws. *)
Definition verdict_result (v : JwtVerdict) : Result JwtPayload :=
  match v with
  | JwtOk p => Ok p
  | JwtExpired => Throw TokenExpiredError
  | JwtInvalid => Throw JsonWebTokenError
  end.

Section Auth.
Context `{!JwtLib} `{!BcryptLib}.
Variable config : Config.

(** [generateTokens(payload)] called at time [now]. *)
Definition generateTokens (payload : JwtPayload) (now : Z) : Tokens :=
  {| accessToken := jwt_sign payload (jwtSecret config) now FIFTEEN_MINUTES;
     refreshToken := jwt_sign payload (jwtRefreshSecret config) now SEVEN_DAYS |}.

Definition verifyAccessToken (token : string) (now : Z) : Result JwtPayload :=
  verdict_result (jwt_verify token (jwtSecret config) now).

Definition verifyRefreshToken (token : string) (now : Z) : Result JwtPayload :=
  verdict_result (jwt_verify token (jwtRefreshSecret config) now).

(** The row [register] asks Prisma to create: [{ ...data, password:
    hashedPassword, role: data.role || 'CUSTOMER' }] and the defaults. *)
Definition new_row (d : RowDefaults) (salt : string) (data : RegisterData) : User :=
  {| id := new_id d;
     email := rd_email data;
     password := bcrypt_hash (rd_password data) 12 salt;
     firstName := rd_firstName data;
     lastName := rd_lastName data;
     phone := rd_phone data;
     role := role_or_customer (rd_role data);
     emailVerified := new_emailVerified d;
     createdAt := new_createdAt d;
     updatedAt := new_updatedAt d |}.

(** [AuthService.register] *)
Definition register (now : Z) (salt : string) (d : RowDefaults)
    (data : RegisterData) (w : World) : Result AuthResult * World :=
  match findUnique_email (rd_email data) w with
  | Some _ => (Throw (new_Error "User already exists with this email"), w)
  | None =>
    match user_create (new_row d salt data) w with
    | (Throw e, w1) => (Throw e, w1)
    | (Ok user, w1) =>
      let payload := payload_of user in
      let tokens := generateTokens payload now in
      let w2 := redis_set (refresh_key (id user)) (refreshToken tokens) SEVEN_DAYS now w1 in
      (Ok {| ar_user := without_password (row_object user); ar_tokens := tokens |}, w2)
    end
  end.

(** [AuthService.login] *)
Definition login (now : Z) (data : LoginData) (w : World) : Result AuthResult * World :=
  match findUnique_email (ld_email data) w with
  | None => (Throw (new_Error "Invalid credentials"), w)
  | Some user =>
    if bcrypt_compare (ld_password data) (password user)
    then
      let payload := payload_of user in
      let tokens := generateTokens payload now in
      let w' := redis_set (refresh_key (id user)) (refreshToken tokens) SEVEN_DAYS now w in
      (Ok {| ar_user := without_password (row_object user); ar_tokens := tokens |}, w')
    else (Throw (new_Error "Invalid credentials"), w)
  end.

(** [AuthService.refreshTokens] *)
Definition refreshTokens (now : Z) (uid : string) (w : World) : Result Tokens * World :=
  match findUnique_id uid w with
  | None => (Throw (new_Error "User not found"), w)
  | Some user =>
    let payload := payload_of user in
    let tokens := generateTokens payload now in
    (Ok tokens, redis_set (refresh_key (id user)) (refreshToken tokens) SEVEN_DAYS now w)
  end.

(** [AuthService.logout] *)
Definition logout (uid : string) (w : World) : World :=
  redis_del (refresh_key uid) w.

(** [AuthService.getProfile] *)
Definition getProfile (uid : string) (w : World) : option (gmap string JsVal) :=
  match findUnique_id uid w with
  | None => None
  | Some user => Some (without_password (row_object user))
  end.

(** [AuthController.register] *)
Definition register_controller (now : Z) (salt : string) (d : RowDefaults)
    (req_body : RegisterData) (w : World) : Outcome * World :=
  match register now salt d req_body w with
  | (Ok result, w') =>
    (Respond {| status := 201;
                body := {| b_message := Some "User registered successfully";
                           b_details := None;
                           b_user := Some (ar_user result);
                           b_tokens := Some (ar_tokens result) |} |}, w')
  | (Throw error, w') => (Next error, w')
  end.

(** [AuthController.login] *)
Definition login_controller (now : Z) (req_body : LoginData) (w : World) : Outcome * World :=
  match login now req_body w with
  | (Ok result, w') =>
    (Respond {| status := 200;
                body := {| b_message := Some "Login successful";
                           b_details := None;
                           b_user := Some (ar_user result);
                           b_tokens := Some (ar_tokens result) |} |}, w')
  | (Throw error, w') => (Next error, w')
  end.

(** JavaScript's [!s] on a string or undefined: only the empty string and
    a missing value are falsy. *)
Definition falsy (s : option string) : bool :=
  match s with
  | None => true
  | Some s => bool_decide (s = "")
  end.

(** [AuthController.refreshToken]: [req_token] is [req.body.refreshToken]. *)
Definition refreshToken_controller (now : Z) (req_token : option string)
    (w : World) : Outcome * World :=
  match req_token with
  | None => (Respond {| status := 400; body := message_body "Refresh token required" |}, w)
  | Some token =>
    if falsy (Some token)
    then (Respond {| status := 400; body := message_body "Refresh token required" |}, w)
    else
      match verifyRefreshToken token now with
      | Throw error => (Next error, w)
      | Ok decoded =>
        let storedToken := redis_get (refresh_key (userId decoded)) now w in
        if falsy storedToken || negb (bool_decide (storedToken = Some token))
        then (Respond {| status := 403; body := message_body "Invalid refresh token" |}, w)
        else
          match refreshTokens now (userId decoded) w with
          | (Ok tokens, w') =>
            (Respond {| status := 200;
                        body := {| b_message := Some "Tokens refreshed successfully";
                                   b_details := None;
                                   b_user := None;
                                   b_tokens := Some tokens |} |}, w')
          | (Throw error, w') => (Next error, w')
          end
      end
  end.

(** [AuthController.logout]: [req_user] is [req.user], set by the
    authentication middleware. *)
Definition logout_controller (req_user : option JwtPayload) (w : World) : Outcome * World :=
  match req_user with
  | None => (Respond {| status := 401; body := message_body "Authentication required" |}, w)
  | Some u =>
    (Respond {| status := 200; body := message_body "Logged out successfully" |},
     logout (userId u) w)
  end.

(** [AuthController.getProfile] *)
Definition getProfile_controller (req_user : option JwtPayload) (w : World) : Outcome * World :=
  match req_user with
  | None => (Respond {| status := 401; body := message_body "Authentication required" |}, w)
  | Some u =>
    match getProfile (userId u) w with
    | None => (Respond {| status := 404; body := message_body "User not found" |}, w)
    | Some user =>
      (Respond {| status := 200;
                  body := {| b_message := None; b_details := None;
                             b_user := Some user; b_tokens := None |} |}, w)
    end
  end.

(** The response to [POST /api/auth/refresh]: the controller, then the
    error middleware for what it passed to [next]. *)
Definition post_refresh (node_env : option string) (now : Z)
    (req_token : option string) (w : World) : Response * World :=
  let '(o, w') := refreshToken_controller now req_token w in
  (finish node_env o, w').

(** The tokens a controller outcome carries, if any. *)
Definition issued_tokens (o : Outcome) : option Tokens :=
  match o with
  | Respond r => b_tokens (body r)
  | Next _ => None
  end.

(** The user object a controller outcome carries, if any. *)
Definition outcome_user (o : Outcome) : option (gmap string JsVal) :=
  match o with
  | Respond r => b_user (body r)
  | Next _ => None
  end.

(** A run of refresh requests, each with the instant it arrives at. *)
Fixpoint post_refresh_all (node_env : option string)
    (reqs : list (Z * option string)) (w : World) : list Response * World :=
  match reqs with
  | [] => ([], w)
  | (now, req_token) :: rest =>
    let '(r, w1) := post_refresh node_env now req_token w in
    let '(rs, w2) := post_refresh_all node_env rest w1 in
    (r :: rs, w2)
  end.

(** *** Runs of service calls, with the record of what was issued *)

Inductive AuthOp :=
| OpRegister (now : Z) (salt : string) (d : RowDefaults) (data : RegisterData)
| OpLogin (now : Z) (data : LoginData)
| OpRefresh (now : Z) (uid : string)
| OpLogout (uid : string)
| OpGetProfile (uid : string).

(** The store after a service call. *)
Definition op_world (op : AuthOp) (w : World) : World :=
  match op with
  | OpRegister now salt d data => (register now salt d data w).2
  | OpLogin now data => (login now data w).2
  | OpRefresh now uid => (refreshTokens now uid w).2
  | OpLogout uid => logout uid w
  | OpGetProfile uid => w
  end.

(** The refresh token a service call hands out, with the user it is for
    and the instant of issue; [None] when the call throws or issues none. *)
Definition op_issue (op : AuthOp) (w : World) : option (string * (string * Z)) :=
  match op with
  | OpRegister now salt d data =>
    match register now salt d data w with
    | (Ok r, _) => Some (new_id d, (refreshToken (ar_tokens r), now))
    | (Throw _, _) => None
    end
  | OpLogin now data =>
    match login now data w, findUnique_email (ld_email data) w with
    | (Ok r, _), Some u => Some (id u, (refreshToken (ar_tokens r), now))
    | _, _ => None
    end
  | OpRefresh now uid =>
    match refreshTokens now uid w with
    | (Ok t, _) => Some (uid, (refreshToken t, now))
    | (Throw _, _) => None
    end
  | OpLogout _ => None
  | OpGetProfile _ => None
  end.

(** The ledger of the latest refresh token issued to each user id. *)
Definition op_ledger (op : AuthOp) (w : World)
    (g : gmap string (string * Z)) : gmap string (string * Z) :=
  match op_issue op w with
  | Some (uid, t) => <[uid := t]> g
  | None => g
  end.

Fixpoint run (ops : list AuthOp) (w : World) (g : gmap string (string * Z))
    : World * gmap string (string * Z) :=
  match ops with
  | [] => (w, g)
  | op :: rest => run rest (op_world op w) (op_ledger op w g)
  end.

(** No call of the run hands a refresh token to [uid]. *)
Fixpoint issues_none_for (uid : string) (ops : list AuthOp) (w : World) : Prop :=
  match ops with
  | [] => True
  | op :: rest =>
    (∀ t, op_issue op w ≠ Some (uid, t)) ∧ issues_none_for uid rest (op_world op w)
  end.

(** Whatever Redis holds under a user's refresh key is the latest refresh
    token issued to that user, due to expire seven days after its issue. *)
Definition redis_tracks_ledger (w : World) (g : gmap string (string * Z)) : Prop :=
  ∀ uid e, redis w !! refresh_key uid = Some e →
    g !! uid = Some (r_value e, r_expires_at e - SEVEN_DAYS).

End Auth.

(** ** An executable instance of the two library interfaces

    Tokens that spell out their claims in binary and a hash that tags the
    password: enough to satisfy the laws of [JwtLib] and [BcryptLib] and to
    run the service on concrete requests. *)

Definition spelled_sign (p : JwtPayload) (secret : string) (iat ttl : Z) : string :=
  BinaryString.of_pos (encode (userId p, p_email p, p_role p, secret, iat + ttl)).

Definition spelled_verify (t secret : string) (now : Z) : JwtVerdict :=
  if bool_decide (t = "") then JwtInvalid else
  match decode (A := string * string * string * string * Z) (BinaryString.to_pos t) with
  | Some (u, e, r, s, exp) =>
    if bool_decide (s = secret)
    then if bool_decide (now < exp)
         then JwtOk {| userId := u; p_email := e; p_role := r |}
         else JwtExpired
    else JwtInvalid
  | None => JwtInvalid
  end.

Lemma spelled_verify_sign p secret iat ttl now :
  spelled_verify (spelled_sign p secret iat ttl) secret now =
  if bool_decide (now < iat + ttl) then JwtOk p else JwtExpired.
Proof.
  unfold spelled_verify, spelled_sign.
  rewrite bool_decide_eq_false_2 by (unfold BinaryString.of_pos; discriminate).
  rewrite BinaryString.to_pos_of_pos, decode_encode.
  rewrite bool_decide_eq_true_2 by reflexivity.
  destruct p; reflexivity.
Qed.

Lemma spelled_verify_empty secret now : spelled_verify "" secret now = JwtInvalid.
Proof. reflexivity. Qed.

Instance spelled_jwt : JwtLib := {|
  jwt_sign := spelled_sign;
  jwt_verify := spelled_verify;
  jwt_verify_sign := spelled_verify_sign;
  jwt_verify_empty := spelled_verify_empty
|}.

Definition tagged_hash (pw : string) (rounds : nat) (salt : string) : string :=
  "$2a$12$" +:+ pw.

Definition tagged_compare (pw h : string) : bool :=
  bool_decide (h = "$2a$12$" +:+ pw).

Lemma tagged_compare_hash pw rounds salt :
  tagged_compare pw (tagged_hash pw rounds salt) = true.
Proof. unfold tagged_compare, tagged_hash. apply bool_decide_eq_true_2. reflexivity. Qed.

Instance tagged_bcrypt : BcryptLib := {|
  bcrypt_hash := tagged_hash;
  bcrypt_compare := tagged_compare;
  bcrypt_compare_hash := tagged_compare_hash
|}.


(** ** Availability: slot generation

    The backend has no availability code yet (README: "Future Endpoints");
    the definitions of this part follow the design. *)

(** Modelled from the spec: the operating hours of a shop on a day, the
    [Schedule] entity ("a shop's operating schedule"), in minutes after
    midnight; no schedule code is in the sources. *)
Record Schedule := mkSchedule {
  openTime : Z;
  closeTime : Z
}.

(** Modelled from the spec: an existing booking, the interval an
    [Appointment] occupies, in minutes after midnight. *)
Record Booking := mkBooking {
  bk_start : Z;
  bk_end : Z
}.

(** Modelled from the spec: a slot, "a candidate time interval for
    booking, derived from shop hours and service duration", with the mark
    the overlap pass gives it. *)
Record Slot := mkSlot {
  slot_start : Z;
  slot_end : Z;
  slot_free : bool
}.

(** Modelled from the spec: two half-open intervals overlap ("overlapping
    bookings are excluded"). *)
Definition overlaps (s e : Z) (b : Booking) : Prop :=
  s < bk_end b ∧ bk_start b < e.

(** Modelled from the spec: the order of the "sorted list of existing
    bookings", by start. *)
Definition starts_before (a b : Booking) : Prop := bk_start a <= bk_start b.

Instance starts_before_dec : RelDecision starts_before.
Proof. intros a b. unfold starts_before. apply _. Defined.

Instance starts_before_trans : Transitive starts_before.
Proof. intros a b c. unfold starts_before. lia. Qed.

Instance starts_before_total : Total starts_before.
Proof. intros a b. unfold starts_before. lia. Qed.

(** Modelled from the spec: the scan leaves behind the bookings at the
    head of the sorted list that ended by [t]. *)
Fixpoint drop_ended (t : Z) (bs : list Booking) : list Booking :=
  match bs with
  | [] => []
  | b :: bs' => if bool_decide (bk_end b <= t) then drop_ended t bs' else bs
  end.

(** Modelled from the spec: "overlap marking" of the candidate [s, e)
    against the sorted bookings ahead; it stops at the first booking that
    starts at or after [e]. *)
Fixpoint hits (s e : Z) (bs : list Booking) : bool :=
  match bs with
  | [] => false
  | b :: bs' =>
    if bool_decide (e <= bk_start b) then false
    else if bool_decide (s < bk_end b) then true
    else hits s e bs'
  end.

(** Modelled from the spec: the "interval-scan over a sorted list of
    existing bookings at a fixed granularity": [n] candidates at most, from
    [t] on, each [duration] long, every [granularity] minutes, while they
    end by closing time. *)
Fixpoint scan (granularity duration close : Z) (n : nat) (t : Z)
    (bs : list Booking) : list Slot :=
  match n with
  | O => []
  | S n' =>
    if bool_decide (t + duration <= close)
    then
      let bs' := drop_ended t bs in
      {| slot_start := t; slot_end := t + duration;
         slot_free := negb (hits t (t + duration) bs') |}
      :: scan granularity duration close n' (t + granularity) bs'
    else []
  end.

(** Modelled from the spec: the number of candidate starts between
    opening and closing time. *)
Definition candidate_count (granularity duration : Z) (sched : Schedule) : nat :=
  Z.to_nat ((closeTime sched - openTime sched - duration) / granularity + 1).

(** Modelled from the spec: "slot generation + overlap marking": every
    candidate of the day with its mark. *)
Definition markedSlots (granularity : Z) (sched : Schedule) (duration : Z)
    (bookings : list Booking) : list Slot :=
  scan granularity duration (closeTime sched)
    (candidate_count granularity duration sched) (openTime sched)
    (merge_sort starts_before bookings).

(** Modelled from the spec: "compute free time slots": the candidates the
    overlap pass left unmarked. *)
Definition freeSlots (granularity : Z) (sched : Schedule) (duration : Z)
    (bookings : list Booking) : list Slot :=
  List.filter slot_free (markedSlots granularity sched duration bookings).

(** ** Concrete data for running the model *)

Definition demo_config : Config := {| jwtSecret := "a"; jwtRefreshSecret := "r" |}.

Definition empty_world : World := {| users := []; redis := ∅ |}.

Definition demo_defaults : RowDefaults :=
  {| new_id := "u1"; new_emailVerified := false; new_createdAt := 0; new_updatedAt := 0 |}.

Definition demo_registration : RegisterData :=
  {| rd_email := "a@b.c"; rd_password := "secret12"; rd_firstName := "Ann";
     rd_lastName := "Lee"; rd_phone := None; rd_role := Some RegBarber |}.

(** A second registration, of another user. *)
Definition other_defaults : RowDefaults :=
  {| new_id := "u2"; new_emailVerified := false; new_createdAt := 2; new_updatedAt := 2 |}.

Definition other_registration : RegisterData :=
  {| rd_email := "d@e.f"; rd_password := "hunter22"; rd_firstName := "Dan";
     rd_lastName := "Roe"; rd_phone := Some "555"; rd_role := None |}.

Definition demo_login : LoginData :=
  {| ld_email := "a@b.c"; ld_password := "secret12" |}.

Definition demo_payload : JwtPayload :=
  {| userId := "u1"; p_email := "a@b.c"; p_role := "BARBER" |}.

(** The store after [demo_registration] at time 0. *)
Definition registered_world : World :=
  (register demo_config 0 "salt" demo_defaults demo_registration empty_world).2.

(** The refresh token that registration issued. *)
Definition demo_refresh_token : string :=
  jwt_sign demo_payload (jwtRefreshSecret demo_config) 0 SEVEN_DAYS.

(** A store whose Redis still holds a refresh token of a user whose row
    is gone from the table. *)
Definition orphan_world : World :=
  {| users := [];
     redis := {[ refresh_key "u1" :=
                 {| r_value := demo_refresh_token; r_expires_at := SEVEN_DAYS |} ]} |}.

Definition nine_to_five : Schedule := {| openTime := 540; closeTime := 1020 |}.

(** Three bookings of the day, not in order. *)
Definition demo_bookings : list Booking :=
  [ {| bk_start := 600; bk_end := 660 |};
    {| bk_start := 540; bk_end := 570 |};
    {| bk_start := 900; bk_end := 1000 |} ].

(** ** Shape of the User table *)

(** No two rows of the table share an email: the uniqueness
    [findUnique({ where: { email } })] presupposes. *)
Definition emails_unique (w : World) : Prop := NoDup (email <$> users w).

(** ** Regular expressions of the validation rules

    The validation rules test strings against regular expression
    literals.  The literals are embedded as terms of [Regex] and run by
    derivatives; a string is its sequence of code units (below 256). *)

Inductive Regex : Type :=
| Void
| Eps
| Cls (f : ascii → bool)
| Seq (r1 r2 : Regex)
| Alt (r1 r2 : Regex)
| Star (r : Regex).

(** [r?], [r+], a literal character, and a character of any kind. *)
Definition Opt (r : Regex) : Regex := Alt r Eps.
Definition Plus (r : Regex) : Regex := Seq r (Star r).
Definition Chr (c : ascii) : Regex := Cls (λ x, bool_decide (x = c)).
Definition AnyChar : Regex := Cls (λ _, true).

Fixpoint nullable (r : Regex) : bool :=
  match r with
  | Void => false
  | Eps => true
  | Cls _ => false
  | Seq r1 r2 => nullable r1 && nullable r2
  | Alt r1 r2 => nullable r1 || nullable r2
  | Star _ => true
  end.

Fixpoint deriv (c : ascii) (r : Regex) : Regex :=
  match r with
  | Void => Void
  | Eps => Void
  | Cls f => if f c then Eps else Void
  | Seq r1 r2 =>
    if nullable r1
    then Alt (Seq (deriv c r1) r2) (deriv c r2)
    else Seq (deriv c r1) r2
  | Alt r1 r2 => Alt (deriv c r1) (deriv c r2)
  | Star r1 => Seq (deriv c r1) (Star r1)
  end.

Fixpoint matches (r : Regex) (s : string) : bool :=
  match s with
  | EmptyString => nullable r
  | String c s' => matches (deriv c r) s'
  end.

(** The strings a regular expression denotes. *)
Inductive lang : Regex → string → Prop :=
| lang_eps : lang Eps ""
| lang_cls f c : f c = true → lang (Cls f) (String c "")
| lang_seq r1 r2 s1 s2 : lang r1 s1 → lang r2 s2 → lang (Seq r1 r2) (s1 +:+ s2)
| lang_alt_l r1 r2 s : lang r1 s → lang (Alt r1 r2) s
| lang_alt_r r1 r2 s : lang r2 s → lang (Alt r1 r2) s
| lang_star_nil r : lang (Star r) ""
| lang_star_cons r s1 s2 : lang r s1 → lang (Star r) s2 → lang (Star r) (s1 +:+ s2).

(** [/^r$/.test(s)]: the whole string. *)
Definition test_whole (r : Regex) (s : string) : bool := matches r s.

(** [/^r/.test(s)]: a prefix of the string. *)
Definition test_prefix (r : Regex) (s : string) : bool :=
  matches (Seq r (Star AnyChar)) s.

(** [/r/.test(s)]: somewhere in the string. *)
Definition test_search (r : Regex) (s : string) : bool :=
  matches (Seq (Star AnyChar) (Seq r (Star AnyChar))) s.

(** Character classes, by code unit. *)
Definition code_in (lo hi : N) (c : ascii) : bool :=
  (lo <=? N_of_ascii c)%N && (N_of_ascii c <=? hi)%N.

(** [[a-z]], [[A-Z]], [\d] *)
Definition is_lower : ascii → bool := code_in 97 122.
Definition is_upper : ascii → bool := code_in 65 90.
Definition is_digit : ascii → bool := code_in 48 57.

(** [\s] below 256: tab, line feed, vertical tab, form feed, carriage
    return, space, no-break space. *)
Definition is_space (c : ascii) : bool :=
  code_in 9 13 c || bool_decide (N_of_ascii c = 32%N) || bool_decide (N_of_ascii c = 160%N).

(** [.]: any character but a line terminator. *)
Definition is_dot (c : ascii) : bool :=
  negb (bool_decide (N_of_ascii c = 10%N) || bool_decide (N_of_ascii c = 13%N)).

(** [[a-zA-Z\d]] and its complement [[^a-zA-Z\d]] *)
Definition is_alnum (c : ascii) : bool := is_lower c || is_upper c || is_digit c.
Definition is_symbol (c : ascii) : bool := negb (is_alnum c).

(** [[a-zA-Z\s]] *)
Definition is_letter_or_space (c : ascii) : bool := is_lower c || is_upper c || is_space c.

(** [[\d\s\-\(\)]] *)
Definition is_phone_char (c : ascii) : bool :=
  is_digit c || is_space c || bool_decide (c = "-"%char)
  || bool_decide (c = "("%char) || bool_decide (c = ")"%char).

(** ** utils/validation.schemas.ts: the time pattern of [scheduleSchema] *)

(** [/^([01]?[0-9]|2[0-3]):[0-5][0-9]$/] *)
Definition time_regex : Regex :=
  Seq (Alt (Seq (Opt (Cls (code_in 48 49))) (Cls is_digit))
           (Seq (Chr "2") (Cls (code_in 48 51))))
      (Seq (Chr ":") (Seq (Cls (code_in 48 53)) (Cls is_digit))).

(** The test [Joi.string().pattern(...)] applies to [openTime] and
    [closeTime]. *)
Definition time_pattern (s : string) : bool := test_whole time_regex s.

(** [/^[a-z0-9-]+$/], the slug pattern of [shopSchema]. *)
Definition slug_regex : Regex :=
  Plus (Cls (λ c, is_lower c || is_digit c || bool_decide (c = "-"%char))).

Definition slug_pattern (s : string) : bool := test_whole slug_regex s.

(** The decimal digit of [n < 10], and the two-digit spelling of a number
    below 100: the spellings of hours and minutes. *)
Definition digit_char (n : nat) : ascii := ascii_of_nat (48 + n).

Definition one_digit (n : nat) : string := String (digit_char n) "".

Definition two_digits (n : nat) : string :=
  String (digit_char (n / 10)) (String (digit_char (n mod 10)) "").

(** ** components/auth/register-form.tsx *)

(** The values of the registration form ([RegisterFormData]). *)
Record RegisterFormData := mkRegisterFormData {
  f_firstName : string;
  f_lastName : string;
  f_email : string;
  f_password : string;
  f_confirmPassword : string;
  f_phone : option string;
  f_role : RegRole;
  f_agreeToTerms : bool
}.

(** [/^[a-zA-Z\s]+$/] *)
Definition name_regex : Regex := Plus (Cls is_letter_or_space).

(** [/^(?=.*[a-z])(?=.*[A-Z])(?=.*\d)/]: three lookaheads at the start
    of the string, each a prefix test. *)
Definition password_regex_test (s : string) : bool :=
  test_prefix (Seq (Star (Cls is_dot)) (Cls is_lower)) s
  && test_prefix (Seq (Star (Cls is_dot)) (Cls is_upper)) s
  && test_prefix (Seq (Star (Cls is_dot)) (Cls is_digit)) s.

(** [/^\+?[\d\s\-\(\)]+$/] *)
Definition phone_regex : Regex := Seq (Opt (Chr "+")) (Plus (Cls is_phone_char)).

(** The [firstName] and [lastName] rule: [min(2)], [max(50)], the name
    pattern. *)
Definition name_rule (s : string) : bool :=
  (2 <=? String.length s)%nat && (String.length s <=? 50)%nat
  && test_whole name_regex s.

(** The [password] rule: [min(8)] and the three lookaheads. *)
Definition password_rule (s : string) : bool :=
  (8 <=? String.length s)%nat && password_regex_test s.

(** The [phone] rule: optional, and [!val || pattern.test(val)]. *)
Definition phone_rule (p : option string) : bool :=
  match p with
  | None => true
  | Some val => falsy (Some val) || test_whole phone_regex val
  end.

(** [registerSchema] of the form.  [email_rule] stands for zod's
    [z.string().email().min(1)], whose pattern is the library's. *)
Definition form_schema (email_rule : string → bool) (data : RegisterFormData) : bool :=
  name_rule (f_firstName data)
  && name_rule (f_lastName data)
  && email_rule (f_email data)
  && password_rule (f_password data)
  && phone_rule (f_phone data)
  && bool_decide (f_agreeToTerms data = true)
  && bool_decide (f_password data = f_confirmPassword data).

(** What [getPasswordStrength] returns. *)
Record PasswordStrength := mkPasswordStrength {
  strength : Z;
  label : string
}.

(** [getPasswordStrength] *)
Definition getPasswordStrength (password : string) : PasswordStrength :=
  if falsy (Some password) then {| strength := 0; label := "" |}
  else
    let strength := 0 in
    let strength := if (8 <=? String.length password)%nat then strength + 1 else strength in
    let strength := if test_search (Cls is_lower) password then strength + 1 else strength in
    let strength := if test_search (Cls is_upper) password then strength + 1 else strength in
    let strength := if test_search (Cls is_digit) password then strength + 1 else strength in
    let strength := if test_search (Cls is_symbol) password then strength + 1 else strength in
    let label :=
      match strength with
      | 0 | 1 => "Very Weak"
      | 2 => "Weak"
      | 3 => "Good"
      | 4 | 5 => "Strong"
      | _ => ""
      end in
    {| strength := strength; label := label |}.

(** ** stores/auth.store.ts: the frontend's auth store *)

Module AuthStore.

(** [AuthState] *)
Record AuthState := mkAuthState {
  user : option (gmap string JsVal);
  isAuthenticated : bool;
  isLoading : bool;
  error : option string
}.

(** The store's state and the browser's [localStorage]. *)
Record Browser := mkBrowser {
  state : AuthState;
  localStorage : gmap string string
}.

(** [AuthResponse] of lib/api/auth.ts *)
Record AuthResponse := mkAuthResponse {
  resp_message : string;
  resp_user : gmap string JsVal;
  resp_tokens : Tokens
}.

(** What an API call throws, as far as the store looks at it: an [Error]
    with a [response] property, with its [response?.data?.message], or
    anything else. *)
Inductive Thrown :=
| ErrorWithResponse (message : option string)
| OtherThrown.

(** How an awaited API call ends. *)
Inductive ApiOutcome (A : Type) : Type :=
| Resolved (a : A)
| Rejected (e : Thrown).
Arguments Resolved {A} a.
Arguments Rejected {A} e.

(** The state [create] starts from. *)
Definition initial : AuthState :=
  {| user := None; isAuthenticated := false; isLoading := false; error := None |}.

(** [error instanceof Error && 'response' in error
     ? error.response?.data?.message || fallback : fallback] *)
Definition errorMessage (fallback : string) (e : Thrown) : string :=
  match e with
  | ErrorWithResponse (Some m) => if falsy (Some m) then fallback else m
  | ErrorWithResponse None => fallback
  | OtherThrown => fallback
  end.

(** The common body of [login] and [register]: [api] is how the awaited
    call ended, [fallback] the default message.  The second component is
    the error the action throws again. *)
Definition authenticate (fallback : string) (api : ApiOutcome AuthResponse)
    (b : Browser) : Browser * option Thrown :=
  let s1 := {| user := user (state b); isAuthenticated := isAuthenticated (state b);
               isLoading := true; error := None |} in
  match api with
  | Resolved response =>
    let ls := <["refreshToken" := refreshToken (resp_tokens response)]>
              (<["accessToken" := accessToken (resp_tokens response)]> (localStorage b)) in
    ({| state := {| user := Some (resp_user response); isAuthenticated := true;
                    isLoading := false; error := error s1 |};
        localStorage := ls |}, None)
  | Rejected e =>
    ({| state := {| user := user s1; isAuthenticated := isAuthenticated s1;
                    isLoading := false; error := Some (errorMessage fallback e) |};
        localStorage := localStorage b |}, Some e)
  end.

(** [login] *)
Definition login (api : ApiOutcome AuthResponse) (b : Browser) : Browser * option Thrown :=
  authenticate "Login failed" api b.

(** [register] *)
Definition register (api : ApiOutcome AuthResponse) (b : Browser) : Browser * option Thrown :=
  authenticate "Registration failed" api b.

(** [logout]: the [finally] block runs however the call ended. *)
Definition logout (api : ApiOutcome unit) (b : Browser) : Browser :=
  {| state := {| user := None; isAuthenticated := false;
                 isLoading := isLoading (state b); error := None |};
     localStorage := delete "refreshToken" (delete "accessToken" (localStorage b)) |}.

(** [getProfile] *)
Definition getProfile (api : ApiOutcome (gmap string JsVal)) (b : Browser) : Browser :=
  match api with
  | Resolved u =>
    {| state := {| user := Some u; isAuthenticated := true;
                   isLoading := false; error := error (state b) |};
       localStorage := localStorage b |}
  | Rejected _ =>
    {| state := {| user := None; isAuthenticated := false;
                   isLoading := false; error := error (state b) |};
       localStorage := localStorage b |}
  end.

(** [clearError] *)
Definition clearError (b : Browser) : Browser :=
  {| state := {| user := user (state b); isAuthenticated := isAuthenticated (state b);
                 isLoading := isLoading (state b); error := None |};
     localStorage := localStorage b |}.

(** [setLoading] *)
Definition setLoading (loading : bool) (b : Browser) : Browser :=
  {| state := {| user := user (state b); isAuthenticated := isAuthenticated (state b);
                 isLoading := loading; error := error (state b) |};
     localStorage := localStorage b |}.

(** The actions of the store, each with the way its API call ended. *)
Inductive Action :=
| Login (api : ApiOutcome AuthResponse)
| Register (api : ApiOutcome AuthResponse)
| Logout (api : ApiOutcome unit)
| GetProfile (api : ApiOutcome (gmap string JsVal))
| ClearError
| SetLoading (loading : bool).

Definition dispatch (a : Action) (b : Browser) : Browser :=
  match a with
  | Login api => (login api b).1
  | Register api => (register api b).1
  | Logout api => logout api b
  | GetProfile api => getProfile api b
  | ClearError => clearError b
  | SetLoading loading => setLoading loading b
  end.

Fixpoint dispatch_all (actions : list Action) (b : Browser) : Browser :=
  match actions with
  | [] => b
  | a :: rest => dispatch_all rest (dispatch a b)
  end.

(** The store says "authenticated" exactly when it holds a user. *)
Definition coherent (s : AuthState) : Prop :=
  isAuthenticated s = true ↔ is_Some (user s).

End AuthStore.

(** Every character of the string is of the class. *)
Definition every_char (f : ascii → bool) (s : string) : Prop :=
  ∀ s1 c s2, s = s1 +:+ String c s2 → f c = true.

(** A filled-in registration form. *)
Definition demo_form : RegisterFormData :=
  {| f_firstName := "Ann"; f_lastName := "Lee"; f_email := "a@b.c";
     f_password := "Secret12"; f_confirmPassword := "Secret12";
     f_phone := Some "+1 (555) 010-99"; f_role := RegBarber; f_agreeToTerms := true |}.

(** * Properties *)

(** ** Lookups in the User table *)

Lemma find_snoc_fresh {A} (f : A → bool) (l : list A) (x : A) :
  List.find f l = None → f x = true → List.find f (l ++ [x]) = Some x.
Proof.
  induction l as [|a l IH]; simpl; intros Hnone Hx.
  - rewrite Hx. reflexivity.
  - destruct (f a); [discriminate | auto].
Qed.

Lemma findUnique_email_found e w u :
  findUnique_email e w = Some u → u ∈ users w ∧ email u = e.
Proof.
  unfold findUnique_email. intros Hf.
  apply List.find_some in Hf as [Hin Heq].
  apply bool_decide_eq_true in Heq.
  split; [by apply list_elem_of_In | exact Heq].
Qed.

Lemma findUnique_email_present e w u :
  u ∈ users w → email u = e → is_Some (findUnique_email e w).
Proof.
  unfold findUnique_email. intros Hin Heq.
  destruct (List.find _ (users w)) as [v|] eqn:Hf; [eauto |].
  apply list_elem_of_In in Hin.
  pose proof (List.find_none _ _ Hf u Hin) as Hno. simpl in Hno.
  apply bool_decide_eq_false in Hno. contradiction.
Qed.

Lemma findUnique_id_found i w u :
  findUnique_id i w = Some u → u ∈ users w ∧ id u = i.
Proof.
  unfold findUnique_id. intros Hf.
  apply List.find_some in Hf as [Hin Heq].
  apply bool_decide_eq_true in Heq.
  split; [by apply list_elem_of_In | exact Heq].
Qed.

Lemma refresh_key_inj a b : refresh_key a = refresh_key b → a = b.
Proof. unfold refresh_key. apply (inj (String.app "refresh_token:")). Qed.

Lemma user_create_ok u w v w1 :
  user_create u w = (Ok v, w1) →
  v = u ∧ users w1 = users w ++ [u] ∧ redis w1 = redis w ∧
  findUnique_email (email u) w1 = Some u.
Proof.
  unfold user_create. case_bool_decide as Hfree; [| discriminate].
  intros [= <- <-]. destruct Hfree as [_ Hmail].
  repeat split. unfold findUnique_email in *. simpl.
  apply find_snoc_fresh; [assumption | by apply bool_decide_eq_true].
Qed.

Section AuthProperties.
Context `{!JwtLib} `{!BcryptLib}.
Variable config : Config.

(** What a successful [register] did, step by step. *)
Lemma register_ok now salt d data w r w1 :
  register config now salt d data w = (Ok r, w1) →
  let u := new_row d salt data in
  let t := generateTokens config (payload_of u) now in
  findUnique_email (rd_email data) w = None ∧
  users w1 = users w ++ [u] ∧
  redis w1 = <[refresh_key (id u) :=
                {| r_value := refreshToken t; r_expires_at := now + SEVEN_DAYS |}]> (redis w) ∧
  findUnique_email (rd_email data) w1 = Some u ∧
  r = {| ar_user := without_password (row_object u); ar_tokens := t |}.
Proof.
  unfold register. intros Hreg.
  destruct (findUnique_email (rd_email data) w) as [x|] eqn:Hmail; [discriminate |].
  destruct (user_create (new_row d salt data) w) as [[v|e] w'] eqn:Hc; [| discriminate].
  apply user_create_ok in Hc as (-> & Husers & Hredis & Hfind).
  injection Hreg as <- <-.
  simpl. rewrite Husers, Hredis. repeat split. exact Hfind.
Qed.

(** What a successful [login] did. *)
Lemma login_ok now data w r w1 :
  login config now data w = (Ok r, w1) →
  ∃ u, findUnique_email (ld_email data) w = Some u ∧
       bcrypt_compare (ld_password data) (password u) = true ∧
       let t := generateTokens config (payload_of u) now in
       w1 = redis_set (refresh_key (id u)) (refreshToken t) SEVEN_DAYS now w ∧
       r = {| ar_user := without_password (row_object u); ar_tokens := t |}.
Proof.
  unfold login. intros Hlog.
  destruct (findUnique_email (ld_email data) w) as [u|] eqn:Hmail; [| discriminate].
  destruct (bcrypt_compare (ld_password data) (password u)) eqn:Hpw; [| discriminate].
  injection Hlog as <- <-.
  exists u. cbv zeta. auto.
Qed.

(** What a successful [refreshTokens] did. *)
Lemma refreshTokens_ok now uid w t w1 :
  refreshTokens config now uid w = (Ok t, w1) →
  ∃ u, findUnique_id uid w = Some u ∧ id u = uid ∧
       t = generateTokens config (payload_of u) now ∧
       w1 = redis_set (refresh_key uid) (refreshToken t) SEVEN_DAYS now w.
Proof.
  unfold refreshTokens. intros Href.
  destruct (findUnique_id uid w) as [u|] eqn:Hid; [| discriminate].
  injection Href as <- <-.
  pose proof (findUnique_id_found _ _ _ Hid) as [_ Hu].
  exists u. rewrite Hu. auto.
Qed.

(** C1: in every store that holds a user with the requested email,
    [register] throws 'User already exists with this email' and leaves the
    store as it was: no row is added, no key is written to Redis, and the
    controller passes the error on without tokens. *)
Theorem register_duplicate_email_rejected now salt d data w u :
  u ∈ users w → email u = rd_email data →
  register config now salt d data w =
    (Throw (new_Error "User already exists with this email"), w) ∧
  register_controller config now salt d data w =
    (Next (new_Error "User already exists with this email"), w) ∧
  issued_tokens (register_controller config now salt d data w).1 = None.
Proof.
  intros Hin Hmail.
  destruct (findUnique_email_present _ _ _ Hin Hmail) as [x Hx].
  assert (Hreg : register config now salt d data w =
            (Throw (new_Error "User already exists with this email"), w)).
  { unfold register. rewrite Hx. reflexivity. }
  unfold register_controller. rewrite Hreg. auto.
Qed.

(** C9: [login] throws the same error, 'Invalid credentials', when no user
    has the email and when the password does not match; every failed login
    throws exactly that error and leaves the store untouched, so the error
    does not tell the two cases apart. *)
Theorem login_failures_indistinguishable now data w :
  (findUnique_email (ld_email data) w = None →
   login config now data w = (Throw (new_Error "Invalid credentials"), w)) ∧
  (∀ u, findUnique_email (ld_email data) w = Some u →
        bcrypt_compare (ld_password data) (password u) = false →
        login config now data w = (Throw (new_Error "Invalid credentials"), w)) ∧
  (∀ e w', login config now data w = (Throw e, w') →
           e = new_Error "Invalid credentials" ∧ w' = w).
Proof.
  unfold login. repeat split.
  - intros ->. reflexivity.
  - intros u -> ->. reflexivity.
  - destruct (findUnique_email _ w) as [u|]; [| congruence].
    destruct (bcrypt_compare _ _); [discriminate | congruence].
  - destruct (findUnique_email _ w) as [u|]; [| congruence].
    destruct (bcrypt_compare _ _); [discriminate | congruence].
Qed.

End AuthProperties.

(** C4: [errorHandler] answers a [ValidationError] with 400 'Validation
    error', an [UnauthorizedError] with 401 'Unauthorized', a
    [PrismaClientKnownRequestError] with 400 'Database error', and any other
    error with 500 'Internal server error'; the body always has a message. *)
Theorem errorHandler_status_mapping node_env error :
  let r := errorHandler node_env error in
  (err_name error = "ValidationError" →
   status r = 400 ∧ b_message (body r) = Some "Validation error") ∧
  (err_name error = "UnauthorizedError" →
   status r = 401 ∧ b_message (body r) = Some "Unauthorized") ∧
  (err_name error = "PrismaClientKnownRequestError" →
   status r = 400 ∧ b_message (body r) = Some "Database error") ∧
  (err_name error ≠ "ValidationError" → err_name error ≠ "UnauthorizedError" →
   err_name error ≠ "PrismaClientKnownRequestError" →
   status r = 500 ∧ b_message (body r) = Some "Internal server error") ∧
  is_Some (b_message (body r)).
Proof.
  unfold errorHandler. cbv zeta.
  repeat case_bool_decide; simpl; repeat split; eauto; congruence.
Qed.

(** ** Passwords and returned users *)

Lemma row_object_password u : row_object u !! "password" = Some (JStr (password u)).
Proof. reflexivity. Qed.


Section Credentials.
Context `{!JwtLib} `{!BcryptLib}.
Variable config : Config.

(** C2: after an accepted registration, a login with the same email and
    password succeeds, and the access and refresh tokens it returns verify
    under the configured secrets (each until it expires) with the payload
    of that user: the id, email and role of the row. *)
Theorem register_then_login_round_trip now salt d data w r w1 now2 :
  register config now salt d data w = (Ok r, w1) →
  ∃ r2 w2,
    login config now2 {| ld_email := rd_email data; ld_password := rd_password data |} w1
      = (Ok r2, w2) ∧
    let p := {| userId := new_id d; p_email := rd_email data;
                p_role := role_name (role_or_customer (rd_role data)) |} in
    ar_user r2 !! "id" = Some (JStr (userId p)) ∧
    ar_user r2 !! "email" = Some (JStr (p_email p)) ∧
    ar_user r2 !! "role" = Some (JStr (p_role p)) ∧
    (∀ t, t < now2 + FIFTEEN_MINUTES →
          verifyAccessToken config (accessToken (ar_tokens r2)) t = Ok p) ∧
    (∀ t, t < now2 + SEVEN_DAYS →
          verifyRefreshToken config (refreshToken (ar_tokens r2)) t = Ok p).
Proof.
  intros Hreg. apply register_ok in Hreg as (_ & _ & _ & Hfind & _).
  unfold login. simpl. rewrite Hfind. simpl.
  rewrite bcrypt_compare_hash.
  eexists _, _. split; [reflexivity |]. simpl.
  split; [reflexivity |]. split; [reflexivity |]. split; [reflexivity |].
  unfold verifyAccessToken, verifyRefreshToken. simpl.
  split; intros t Ht; rewrite jwt_verify_sign, bool_decide_eq_true_2 by exact Ht;
    reflexivity.
Qed.

(** C6: [register] persists the bcrypt hash, cost 12, of the supplied
    password as the password of the new row, the only row it adds; and
    [login] succeeds only when [bcrypt.compare] of the supplied password
    and the stored hash is true. *)
Theorem password_hashed_on_register_checked_on_login :
  (∀ now salt d data w r w1,
     register config now salt d data w = (Ok r, w1) →
     ∃ u, users w1 = users w ++ [u] ∧
          findUnique_email (rd_email data) w1 = Some u ∧
          password u = bcrypt_hash (rd_password data) 12 salt) ∧
  (∀ now data w r w1,
     login config now data w = (Ok r, w1) →
     ∃ u, findUnique_email (ld_email data) w = Some u ∧
          bcrypt_compare (ld_password data) (password u) = true).
Proof.
  split.
  - intros now salt d data w r w1 Hreg.
    apply register_ok in Hreg as (_ & Husers & _ & Hfind & _).
    exists (new_row d salt data). auto.
  - intros now data w r w1 Hlog.
    apply login_ok in Hlog as (u & Hfind & Hpw & _). eauto.
Qed.


End Credentials.

(** ** Refresh tokens in Redis *)

Lemma redis_get_Some key now w t :
  redis_get key now w = Some t ↔
  ∃ e, redis w !! key = Some e ∧ now < r_expires_at e ∧ r_value e = t.
Proof.
  unfold redis_get. destruct (redis w !! key) as [e|].
  - case_bool_decide as Hlive; split.
    + intros [= <-]. eauto.
    + intros (e' & [= <-] & _ & <-). reflexivity.
    + discriminate.
    + intros (e' & [= <-] & Hlt & _). contradiction.
  - split; [discriminate | intros (e & He & _); discriminate].
Qed.

Lemma errorHandler_jwt_errors node_env :
  status (errorHandler node_env TokenExpiredError) = 500 ∧
  status (errorHandler node_env JsonWebTokenError) = 500 ∧
  b_tokens (body (errorHandler node_env TokenExpiredError)) = None ∧
  b_tokens (body (errorHandler node_env JsonWebTokenError)) = None.
Proof. repeat split. Qed.

Section Sessions.
Context `{!JwtLib} `{!BcryptLib}.
Variable config : Config.

Lemma verifyRefreshToken_nonempty token now decoded :
  verifyRefreshToken config token now = Ok decoded → token ≠ "".
Proof.
  unfold verifyRefreshToken. intros Hv ->.
  rewrite jwt_verify_empty in Hv. discriminate.
Qed.

Lemma verifyRefreshToken_issued p iat now :
  verifyRefreshToken config (refreshToken (generateTokens config p iat)) now =
  if bool_decide (now < iat + SEVEN_DAYS) then Ok p else Throw TokenExpiredError.
Proof.
  unfold verifyRefreshToken, generateTokens. simpl.
  rewrite jwt_verify_sign. case_bool_decide; reflexivity.
Qed.

Lemma issued_refresh_token_nonempty p iat :
  refreshToken (generateTokens config p iat) ≠ "".
Proof.
  intros Hempty.
  pose proof (verifyRefreshToken_issued p iat iat) as Hv.
  rewrite Hempty in Hv. unfold verifyRefreshToken in Hv.
  rewrite jwt_verify_empty in Hv. simpl in Hv.
  case_bool_decide; discriminate.
Qed.

Lemma register_throw now salt d data w e w1 :
  register config now salt d data w = (Throw e, w1) → w1 = w.
Proof.
  unfold register, user_create.
  destruct (findUnique_email _ w); [congruence |].
  case_bool_decide; [discriminate | congruence].
Qed.

Lemma login_throw now data w e w1 :
  login config now data w = (Throw e, w1) → w1 = w.
Proof.
  unfold login.
  destruct (findUnique_email _ w); [| congruence].
  destruct (bcrypt_compare _ _); [discriminate | congruence].
Qed.

Lemma refreshTokens_throw now uid w e w1 :
  refreshTokens config now uid w = (Throw e, w1) → w1 = w.
Proof.
  unfold refreshTokens. destruct (findUnique_id uid w); [discriminate | congruence].
Qed.

(** A refresh request whose token verifies for a user without a live
    stored token is answered 403 and changes nothing. *)
Lemma refresh_without_stored_token now token decoded w :
  verifyRefreshToken config token now = Ok decoded →
  redis_get (refresh_key (userId decoded)) now w ≠ Some token →
  refreshToken_controller config now (Some token) w =
    (Respond {| status := 403; body := message_body "Invalid refresh token" |}, w).
Proof.
  intros Hv Hstored. pose proof (verifyRefreshToken_nonempty _ _ _ Hv) as Hne.
  unfold refreshToken_controller. simpl.
  rewrite bool_decide_eq_false_2 by exact Hne. rewrite Hv.
  destruct (redis_get _ now w) as [s|]; simpl; [| reflexivity].
  rewrite (bool_decide_eq_false_2 (Some s = Some token)) by exact Hstored.
  rewrite orb_true_r. reflexivity.
Qed.

(** Storing a refresh token keeps the ledger in step with Redis. *)
Lemma redis_set_tracks uid0 tok now w g :
  redis_tracks_ledger w g →
  redis_tracks_ledger (redis_set (refresh_key uid0) tok SEVEN_DAYS now w)
                      (<[uid0 := (tok, now)]> g).
Proof.
  intros Hinv uid e. unfold redis_set. simpl.
  destruct (decide (uid0 = uid)) as [-> | Hne].
  - rewrite !lookup_insert_eq. intros [= <-]. simpl. do 2 f_equal. lia.
  - rewrite !lookup_insert_ne; [apply Hinv | exact Hne |].
    intros Hk. apply refresh_key_inj in Hk. contradiction.
Qed.

Lemma op_preserves_tracking op w g :
  redis_tracks_ledger w g →
  redis_tracks_ledger (op_world config op w) (op_ledger config op w g).
Proof.
  intros Hinv. unfold op_ledger. destruct op as [now salt d data | now data | now uid | uid | uid]; simpl.
  - destruct (register config now salt d data w) as [[r|e] w1] eqn:Hr; simpl.
    + pose proof (register_ok _ _ _ _ _ _ _ _ Hr) as (_ & Hu & Hredis & _ & ->). simpl.
      intros uid e. rewrite Hredis.
      apply (redis_set_tracks (new_id d) _ now w g Hinv uid e).
    + apply register_throw in Hr as ->. exact Hinv.
  - destruct (login config now data w) as [[r|e] w1] eqn:Hr; simpl.
    + pose proof (login_ok _ _ _ _ _ _ Hr) as (u & Hfind & _ & -> & ->).
      rewrite Hfind. simpl. apply redis_set_tracks. exact Hinv.
    + apply login_throw in Hr as ->. exact Hinv.
  - destruct (refreshTokens config now uid w) as [[t|e] w1] eqn:Hr; simpl.
    + pose proof (refreshTokens_ok _ _ _ _ _ _ Hr) as (u & _ & _ & _ & ->).
      apply redis_set_tracks. exact Hinv.
    + apply refreshTokens_throw in Hr as ->. exact Hinv.
  - intros uid' e. unfold logout, redis_del. simpl.
    destruct (decide (uid = uid')) as [-> | Hne].
    + rewrite lookup_delete_eq. discriminate.
    + rewrite lookup_delete_ne; [apply Hinv |].
      intros Hk. apply refresh_key_inj in Hk. contradiction.
  - exact Hinv.
Qed.

(** C7: after a successful [register], [login] or [refreshTokens] for a
    user, Redis holds under 'refresh_token:<id>' exactly the refresh token
    that call issued, due to expire seven days after the call, whatever was
    stored before; and along every run of auth operations, what Redis holds
    under a user's refresh key is the refresh token most recently issued to
    that user with that expiry. *)
Theorem refresh_token_stored_for_seven_days :
  (∀ now salt d data w r w1,
     register config now salt d data w = (Ok r, w1) →
     redis w1 !! refresh_key (new_id d) =
       Some {| r_value := refreshToken (ar_tokens r); r_expires_at := now + 604800 |}) ∧
  (∀ now data w r w1,
     login config now data w = (Ok r, w1) →
     ∃ u, findUnique_email (ld_email data) w = Some u ∧
          redis w1 !! refresh_key (id u) =
            Some {| r_value := refreshToken (ar_tokens r); r_expires_at := now + 604800 |}) ∧
  (∀ now uid w t w1,
     refreshTokens config now uid w = (Ok t, w1) →
     redis w1 !! refresh_key uid =
       Some {| r_value := refreshToken t; r_expires_at := now + 604800 |}) ∧
  (∀ ops w g,
     redis_tracks_ledger w g →
     redis_tracks_ledger (run config ops w g).1 (run config ops w g).2).
Proof.
  repeat split.
  - intros now salt d data w r w1 Hr.
    apply register_ok in Hr as (_ & _ & Hredis & _ & ->). rewrite Hredis. simpl.
    apply lookup_insert_eq.
  - intros now data w r w1 Hr.
    apply login_ok in Hr as (u & Hfind & _ & -> & ->).
    exists u. split; [exact Hfind |]. simpl. apply lookup_insert_eq.
  - intros now uid w t w1 Hr.
    apply refreshTokens_ok in Hr as (u & _ & _ & _ & ->). simpl.
    apply lookup_insert_eq.
  - intros ops. induction ops as [|op ops IH]; intros w g Hinv; simpl.
    + exact Hinv.
    + apply IH, op_preserves_tracking, Hinv.
Qed.

(** C5 (amended): [refreshToken] issues new tokens exactly when the body
    holds a refresh token that verifies under the refresh secret, equals the
    live value Redis holds under 'refresh_token:<userId>' for the decoded
    user id, and a user with that id is in the table.  A missing (or empty)
    refresh token is answered 400; a verifying token that Redis does not
    hold, or holds a different value for, is answered 403, with no tokens
    issued and the store unchanged. *)
Theorem refresh_issues_iff_verified_stored_and_user_exists now req_token w :
  (is_Some (issued_tokens (refreshToken_controller config now req_token w).1) ↔
   ∃ token decoded,
     req_token = Some token ∧
     verifyRefreshToken config token now = Ok decoded ∧
     redis_get (refresh_key (userId decoded)) now w = Some token ∧
     is_Some (findUnique_id (userId decoded) w)) ∧
  (falsy req_token = true →
   refreshToken_controller config now req_token w =
     (Respond {| status := 400; body := message_body "Refresh token required" |}, w)) ∧
  (∀ token decoded,
     req_token = Some token →
     verifyRefreshToken config token now = Ok decoded →
     redis_get (refresh_key (userId decoded)) now w ≠ Some token →
     refreshToken_controller config now req_token w =
       (Respond {| status := 403; body := message_body "Invalid refresh token" |}, w) ∧
     issued_tokens (refreshToken_controller config now req_token w).1 = None).
Proof.
  split; [split |split].
  - (* tokens were issued: read the conditions off the path taken *)
    unfold refreshToken_controller.
    destruct req_token as [token|]; [| intros [? [=]]].
    simpl. case_bool_decide as Hempty; [intros [? [=]] |].
    destruct (verifyRefreshToken config token now) as [decoded|e] eqn:Hv; [| intros [? [=]]].
    destruct (redis_get (refresh_key (userId decoded)) now w) as [s|] eqn:Hget;
      simpl; [| intros [? [=]]].
    destruct (bool_decide (s = "")); simpl; [intros [? [=]] |].
    case_bool_decide as Hs; simpl; [| intros [? [=]]].
    injection Hs as ->.
    destruct (refreshTokens config now (userId decoded) w) as [[t|e] w1] eqn:Hr;
      [| intros [? [=]]].
    intros _. exists token, decoded.
    apply refreshTokens_ok in Hr as (u & Hfind & _). eauto.
  - (* the conditions hold: the controller reaches [refreshTokens], which succeeds *)
    intros (token & decoded & -> & Hv & Hget & [u Hu]).
    pose proof (verifyRefreshToken_nonempty _ _ _ Hv) as Hne.
    unfold refreshToken_controller. simpl.
    rewrite bool_decide_eq_false_2 by exact Hne. rewrite Hv, Hget. simpl.
    rewrite bool_decide_eq_false_2 by exact Hne.
    rewrite bool_decide_eq_true_2 by reflexivity. simpl.
    unfold refreshTokens. rewrite Hu. simpl. eauto.
  - unfold refreshToken_controller, falsy.
    destruct req_token as [token|]; [| reflexivity].
    intros ->. reflexivity.
  - intros token decoded -> Hv Hstored.
    rewrite (refresh_without_stored_token _ _ _ _ Hv Hstored). split; reflexivity.
Qed.

Lemma op_keeps_absent uid op w :
  (∀ t, op_issue config op w ≠ Some (uid, t)) →
  redis w !! refresh_key uid = None →
  redis (op_world config op w) !! refresh_key uid = None.
Proof.
  intros Hnone Habsent.
  assert (Hset : ∀ uid0 tok now, uid0 ≠ uid →
            redis (redis_set (refresh_key uid0) tok SEVEN_DAYS now w) !! refresh_key uid = None).
  { intros uid0 tok now Hne. unfold redis_set. simpl.
    rewrite lookup_insert_ne; [exact Habsent |].
    intros Hk. apply refresh_key_inj in Hk. contradiction. }
  destruct op as [now salt d data | now data | now uid0 | uid0 | uid0]; simpl in *.
  - destruct (register config now salt d data w) as [[r|e] w1] eqn:Hr; simpl.
    + pose proof (register_ok _ _ _ _ _ _ _ _ Hr) as (_ & _ & Hredis & _ & _).
      rewrite Hredis. apply (Hset (new_id d)).
      intros Heq. apply (Hnone (refreshToken (ar_tokens r), now)). by rewrite Heq.
    + apply register_throw in Hr as ->. exact Habsent.
  - destruct (login config now data w) as [[r|e] w1] eqn:Hr; simpl.
    + pose proof (login_ok _ _ _ _ _ _ Hr) as (u & Hfind & _ & -> & _).
      rewrite Hfind in Hnone. apply Hset.
      intros Heq. apply (Hnone (refreshToken (ar_tokens r), now)). by rewrite Heq.
    + apply login_throw in Hr as ->. exact Habsent.
  - destruct (refreshTokens config now uid0 w) as [[t|e] w1] eqn:Hr; simpl.
    + pose proof (refreshTokens_ok _ _ _ _ _ _ Hr) as (u & _ & _ & _ & ->).
      apply Hset. intros Heq. apply (Hnone (refreshToken t, now)). by rewrite Heq.
    + apply refreshTokens_throw in Hr as ->. exact Habsent.
  - unfold logout, redis_del. simpl.
    destruct (decide (uid0 = uid)) as [-> | Hne]; [apply lookup_delete_eq |].
    rewrite lookup_delete_ne; [exact Habsent |].
    intros Hk. apply refresh_key_inj in Hk. contradiction.
  - exact Habsent.
Qed.

Lemma run_keeps_absent uid ops : ∀ w g,
  issues_none_for config uid ops w →
  redis w !! refresh_key uid = None →
  redis (run config ops w g).1 !! refresh_key uid = None.
Proof.
  induction ops as [|op ops IH]; simpl; intros w g Hnone Habsent; [exact Habsent |].
  destruct Hnone as [Hop Hrest].
  apply IH; [exact Hrest | by apply op_keeps_absent].
Qed.

(** While Redis has no refresh key for a user, a refresh request with a
    token of that user is turned down and changes nothing. *)
Lemma refresh_rejected_when_absent node_env uid w1 :
  redis w1 !! refresh_key uid = None →
  (∀ now token decoded,
     verifyRefreshToken config token now = Ok decoded → userId decoded = uid →
     post_refresh config node_env now (Some token) w1 =
       ({| status := 403; body := message_body "Invalid refresh token" |}, w1)) ∧
  (∀ p iat now,
     userId p = uid →
     post_refresh config node_env now
       (Some (refreshToken (generateTokens config p iat))) w1 =
       (if bool_decide (now < iat + SEVEN_DAYS)
        then {| status := 403; body := message_body "Invalid refresh token" |}
        else errorHandler node_env TokenExpiredError,
        w1)) ∧
  (∀ reqs,
     Forall (λ req, ∃ p iat, userId p = uid ∧
                     req.2 = Some (refreshToken (generateTokens config p iat))) reqs →
     (post_refresh_all config node_env reqs w1).2 = w1 ∧
     Forall (λ r, (status r = 403 ∨ status r = 500) ∧ b_tokens (body r) = None)
            (post_refresh_all config node_env reqs w1).1).
Proof.
  intros Habsent.
  assert (Hlive : ∀ now token decoded,
     verifyRefreshToken config token now = Ok decoded → userId decoded = uid →
     post_refresh config node_env now (Some token) w1 =
       ({| status := 403; body := message_body "Invalid refresh token" |}, w1)).
  { intros now token decoded Hv Hid. unfold post_refresh.
    rewrite (refresh_without_stored_token now token decoded); [reflexivity | exact Hv |].
    rewrite Hid. unfold redis_get. rewrite Habsent. discriminate. }
  assert (Hissued : ∀ p iat now,
     userId p = uid →
     post_refresh config node_env now
       (Some (refreshToken (generateTokens config p iat))) w1 =
       (if bool_decide (now < iat + SEVEN_DAYS)
        then {| status := 403; body := message_body "Invalid refresh token" |}
        else errorHandler node_env TokenExpiredError,
        w1)).
  { intros p iat now Hid.
    pose proof (verifyRefreshToken_issued p iat now) as Hv.
    case_bool_decide as Hfresh.
    - apply (Hlive now _ p Hv Hid).
    - pose proof (issued_refresh_token_nonempty p iat) as Hne.
      unfold post_refresh, refreshToken_controller, falsy.
      rewrite bool_decide_eq_false_2 by exact Hne.
      rewrite Hv. reflexivity. }
  split; [exact Hlive |]. split; [exact Hissued |].
  intros reqs. induction reqs as [|[now req] reqs IH]; intros Hall.
  - simpl. split; [reflexivity | constructor].
  - apply Forall_cons in Hall as [(p & iat & Hid & Hreq) Hrest].
    cbn [snd] in Hreq. subst req. cbn [post_refresh_all].
    rewrite (Hissued p iat now Hid).
    destruct (IH Hrest) as [Hw Hrs].
    destruct (post_refresh_all config node_env reqs w1) as [rs w2].
    simpl in *. split; [exact Hw |].
    constructor; [| exact Hrs].
    case_bool_decide; simpl.
    + split; [left; reflexivity | reflexivity].
    + destruct (errorHandler_jwt_errors node_env) as (Hs & _ & Ht & _).
      split; [right; exact Hs | exact Ht].
Qed.

(** C8 (amended): after [logout(userId)] the key 'refresh_token:<userId>'
    is absent from Redis and stays absent along every run of auth
    operations none of which stores a new token for that user; in the store
    [w1] such a run ends in, a refresh request presenting a refresh token
    issued to the user is rejected and changes nothing: with status 403
    while the presented token has not expired, and with status 500 (the
    TokenExpiredError reaching the error handler) once it has.  No such
    request is answered with tokens. *)
Theorem logout_blocks_refresh node_env uid w ops g :
  issues_none_for config uid ops (logout uid w) →
  let w1 := (run config ops (logout uid w) g).1 in
  redis (logout uid w) !! refresh_key uid = None ∧
  redis w1 !! refresh_key uid = None ∧
  (∀ now token decoded,
     verifyRefreshToken config token now = Ok decoded → userId decoded = uid →
     post_refresh config node_env now (Some token) w1 =
       ({| status := 403; body := message_body "Invalid refresh token" |}, w1)) ∧
  (∀ p iat now,
     userId p = uid →
     post_refresh config node_env now
       (Some (refreshToken (generateTokens config p iat))) w1 =
       (if bool_decide (now < iat + SEVEN_DAYS)
        then {| status := 403; body := message_body "Invalid refresh token" |}
        else errorHandler node_env TokenExpiredError,
        w1)) ∧
  (∀ reqs,
     Forall (λ req, ∃ p iat, userId p = uid ∧
                     req.2 = Some (refreshToken (generateTokens config p iat))) reqs →
     (post_refresh_all config node_env reqs w1).2 = w1 ∧
     Forall (λ r, (status r = 403 ∨ status r = 500) ∧ b_tokens (body r) = None)
            (post_refresh_all config node_env reqs w1).1).
Proof.
  intros Hnone w1.
  assert (Habsent : redis (logout uid w) !! refresh_key uid = None).
  { unfold logout, redis_del. simpl. apply lookup_delete_eq. }
  assert (Habsent1 : redis w1 !! refresh_key uid = None).
  { apply run_keeps_absent; assumption. }
  split; [exact Habsent |]. split; [exact Habsent1 |].
  apply refresh_rejected_when_absent, Habsent1.
Qed.

End Sessions.

(** ** Slot generation *)

Lemma drop_ended_keeps t bs b :
  b ∈ bs → b ∈ drop_ended t bs ∨ bk_end b <= t.
Proof.
  induction bs as [|a bs IH]; simpl; intros Hin.
  - left. exact Hin.
  - case_bool_decide as Hended; [| left; exact Hin].
    apply elem_of_cons in Hin as [-> | Hin]; [right; exact Hended | auto].
Qed.

Lemma drop_ended_subseteq t bs b : b ∈ drop_ended t bs → b ∈ bs.
Proof.
  induction bs as [|a bs IH]; simpl; [auto |].
  case_bool_decide; [| auto].
  intros Hin. apply elem_of_cons. right. auto.
Qed.

Lemma drop_ended_sorted t bs :
  StronglySorted starts_before bs → StronglySorted starts_before (drop_ended t bs).
Proof.
  induction 1 as [|a bs Hs IH Hall]; simpl; [constructor |].
  case_bool_decide; [exact IH | by constructor].
Qed.

(** On a sorted list the overlap pass misses no booking. *)
Lemma hits_false_no_overlap s e bs :
  StronglySorted starts_before bs → hits s e bs = false →
  ∀ b, b ∈ bs → ¬ overlaps s e b.
Proof.
  induction 1 as [|a bs Hs IH Hall]; simpl; intros Hhit b Hin.
  - by apply elem_of_nil in Hin.
  - rewrite Forall_forall in Hall. unfold overlaps, starts_before in *.
    case_bool_decide as Hahead.
    + apply elem_of_cons in Hin as [-> | Hin]; [lia |].
      specialize (Hall b Hin). lia.
    + case_bool_decide as Hlive; [discriminate |].
      apply elem_of_cons in Hin as [-> | Hin]; [lia |].
      apply (IH Hhit b Hin).
Qed.

(** What the overlap pass marks does overlap a booking. *)
Lemma hits_true_overlap s e bs :
  hits s e bs = true → ∃ b, b ∈ bs ∧ overlaps s e b.
Proof.
  induction bs as [|a bs IH]; simpl; [discriminate |].
  case_bool_decide as Hahead; [discriminate |].
  case_bool_decide as Hlive.
  - intros _. exists a. split; [apply elem_of_cons; auto |]. unfold overlaps. lia.
  - intros Hhit. destruct (IH Hhit) as (b & Hin & Hov).
    exists b. split; [apply elem_of_cons; auto | exact Hov].
Qed.

Section Scan.
Variables granularity duration close : Z.
Hypothesis granularity_pos : 0 < granularity.
Variable bookings : list Booking.

(** The invariant of the scan at candidate start [t] with the bookings
    [bs] still ahead: [bs] is sorted, holds only bookings, and every booking
    it no longer holds ended by [t]. *)
Definition scan_inv (t : Z) (bs : list Booking) : Prop :=
  StronglySorted starts_before bs ∧
  (∀ b, b ∈ bs → b ∈ bookings) ∧
  (∀ b, b ∈ bookings → b ∈ bs ∨ bk_end b <= t).

Lemma scan_inv_step t bs :
  scan_inv t bs → scan_inv (t + granularity) (drop_ended t bs).
Proof.
  intros (Hsorted & Hsub & Hcover). split; [by apply drop_ended_sorted |]. split.
  - intros b Hin. apply Hsub. by apply (drop_ended_subseteq t).
  - intros b Hin. destruct (Hcover b Hin) as [Hbs | Hended]; [| right; lia].
    destruct (drop_ended_keeps t bs b Hbs) as [Hkept | Hended]; [left; exact Hkept | right; lia].
Qed.

Lemma scan_sound n : ∀ t bs sl,
  scan_inv t bs →
  sl ∈ scan granularity duration close n t bs →
  t <= slot_start sl ∧
  (slot_start sl - t) `mod` granularity = 0 ∧
  slot_end sl = slot_start sl + duration ∧
  slot_end sl <= close ∧
  (slot_free sl = true ↔ ∀ b, b ∈ bookings → ¬ overlaps (slot_start sl) (slot_end sl) b).
Proof.
  induction n as [|n IH]; simpl; intros t bs sl Hinv Hin.
  - by apply elem_of_nil in Hin.
  - case_bool_decide as Hfits; [| by apply elem_of_nil in Hin].
    apply elem_of_cons in Hin as [-> | Hin]; simpl.
    + split; [lia |]. split; [by rewrite Z.sub_diag |]. split; [reflexivity |].
      split; [exact Hfits |].
      destruct (scan_inv_step t bs Hinv) as (Hsorted' & Hsub' & _).
      destruct Hinv as (_ & _ & Hcover).
      rewrite negb_true_iff. split.
      * intros Hclear b Hb.
        destruct (Hcover b Hb) as [Hbs | Hended]; [| unfold overlaps; lia].
        destruct (drop_ended_keeps t bs b Hbs) as [Hkept | Hended];
          [| unfold overlaps; lia].
        by apply (hits_false_no_overlap t (t + duration) (drop_ended t bs)).
      * intros Hnone.
        destruct (hits t (t + duration) (drop_ended t bs)) eqn:Hhit; [| reflexivity].
        apply hits_true_overlap in Hhit as (b & Hb & Hov).
        exfalso. apply (Hnone b); [by apply Hsub' | exact Hov].
    + destruct (IH _ _ _ (scan_inv_step t bs Hinv) Hin) as (Hge & Hmod & Hrest).
      split; [lia |]. split; [| exact Hrest].
      replace (slot_start sl - t)
        with (slot_start sl - (t + granularity) + 1 * granularity) by lia.
      rewrite Z.mod_add by lia. exact Hmod.
Qed.

(** With enough fuel the scan reaches every aligned candidate that ends
    by closing time. *)
Lemma scan_complete n : ∀ t bs k,
  (k < n)%nat →
  t + Z.of_nat k * granularity + duration <= close →
  ∃ sl, sl ∈ scan granularity duration close n t bs ∧
        slot_start sl = t + Z.of_nat k * granularity.
Proof.
  induction n as [|n IH]; intros t bs k Hk Hfits; [lia |].
  simpl. rewrite bool_decide_eq_true_2 by nia.
  destruct k as [|k].
  - eexists. split; [apply elem_of_cons; left; reflexivity |]. simpl. lia.
  - destruct (IH (t + granularity) (drop_ended t bs) k) as (sl & Hin & Hstart);
      [lia | lia |].
    exists sl. split; [apply elem_of_cons; right; exact Hin | lia].
Qed.

End Scan.

Lemma sorted_bookings_inv bookings t :
  scan_inv bookings t (merge_sort starts_before bookings).
Proof.
  split; [apply StronglySorted_merge_sort; apply _ |].
  pose proof (merge_sort_Permutation starts_before bookings) as Hperm.
  split; intros b Hin.
  - by rewrite <- Hperm.
  - left. by rewrite Hperm.
Qed.

(** C3: every slot the slot generation returns starts at or after opening
    time and ends by closing time, is exactly the service duration long,
    starts a whole number of granularity steps after opening time, and
    overlaps none of the existing bookings. *)
Theorem freeSlots_within_hours_and_free granularity sched duration bookings sl :
  0 < granularity →
  sl ∈ freeSlots granularity sched duration bookings →
  openTime sched <= slot_start sl ∧
  slot_end sl <= closeTime sched ∧
  slot_end sl - slot_start sl = duration ∧
  (slot_start sl - openTime sched) `mod` granularity = 0 ∧
  ∀ b, b ∈ bookings → ¬ overlaps (slot_start sl) (slot_end sl) b.
Proof.
  intros Hpos Hin. unfold freeSlots in Hin.
  apply list_elem_of_In, List.filter_In in Hin as [Hin Hfree].
  apply list_elem_of_In in Hin. unfold markedSlots in Hin.
  destruct (scan_sound granularity duration (closeTime sched) Hpos bookings _ _ _ sl
              (sorted_bookings_inv bookings (openTime sched)) Hin)
    as (Hopen & Hmod & Hlen & Hclose & Hmark).
  split; [exact Hopen |]. split; [exact Hclose |]. split; [lia |].
  split; [exact Hmod |]. apply Hmark, Hfree.
Qed.

(** Every aligned candidate within the hours that overlaps no booking is
    among the free slots: the generation loses none. *)
Lemma freeSlots_complete granularity sched duration bookings k :
  0 < granularity → 0 <= k →
  openTime sched + k * granularity + duration <= closeTime sched →
  (∀ b, b ∈ bookings →
        ¬ overlaps (openTime sched + k * granularity)
                   (openTime sched + k * granularity + duration) b) →
  {| slot_start := openTime sched + k * granularity;
     slot_end := openTime sched + k * granularity + duration;
     slot_free := true |} ∈ freeSlots granularity sched duration bookings.
Proof.
  intros Hpos Hk Hfits Hnone.
  assert (Hcount : (Z.to_nat k < candidate_count granularity duration sched)%nat).
  { unfold candidate_count.
    assert (k <= (closeTime sched - openTime sched - duration) / granularity)
      by (apply Z.div_le_lower_bound; lia).
    lia. }
  destruct (scan_complete granularity duration (closeTime sched) Hpos
              (candidate_count granularity duration sched) (openTime sched)
              (merge_sort starts_before bookings) (Z.to_nat k) Hcount)
    as (sl & Hin & Hstart); [rewrite Z2Nat.id by lia; exact Hfits |].
  rewrite Z2Nat.id in Hstart by lia.
  destruct (scan_sound granularity duration (closeTime sched) Hpos bookings _ _ _ sl
              (sorted_bookings_inv bookings (openTime sched)) Hin)
    as (_ & _ & Hlen & _ & Hmark).
  assert (Hfree : slot_free sl = true).
  { apply Hmark. rewrite Hlen, Hstart. exact Hnone. }
  assert (Hsl : sl = {| slot_start := openTime sched + k * granularity;
                        slot_end := openTime sched + k * granularity + duration;
                        slot_free := true |}).
  { destruct sl as [s e f]. simpl in *. congruence. }
  rewrite <- Hsl. unfold freeSlots, markedSlots.
  apply list_elem_of_In, List.filter_In. split; [by apply list_elem_of_In | exact Hfree].
Qed.

Example freeSlots_of_the_demo_day :
  freeSlots 30 nine_to_five 60 demo_bookings =
  [ {| slot_start := 660; slot_end := 720; slot_free := true |};
    {| slot_start := 690; slot_end := 750; slot_free := true |};
    {| slot_start := 720; slot_end := 780; slot_free := true |};
    {| slot_start := 750; slot_end := 810; slot_free := true |};
    {| slot_start := 780; slot_end := 840; slot_free := true |};
    {| slot_start := 810; slot_end := 870; slot_free := true |};
    {| slot_start := 840; slot_end := 900; slot_free := true |} ].
Proof. vm_compute. reflexivity. Qed.

(** ** The properties on concrete requests *)

Lemma registered_world_row :
  users registered_world = [new_row demo_defaults "salt" demo_registration].
Proof. reflexivity. Qed.

Lemma register_duplicate_email_rejected_witness :
  register demo_config 9 "pepper" demo_defaults demo_registration registered_world =
    (Throw (new_Error "User already exists with this email"), registered_world) ∧
  register_controller demo_config 9 "pepper" demo_defaults demo_registration registered_world =
    (Next (new_Error "User already exists with this email"), registered_world) ∧
  issued_tokens (register_controller demo_config 9 "pepper" demo_defaults
                   demo_registration registered_world).1 = None.
Proof.
  apply (register_duplicate_email_rejected demo_config 9 "pepper" demo_defaults
           demo_registration registered_world
           (new_row demo_defaults "salt" demo_registration)).
  - rewrite registered_world_row. apply list_elem_of_singleton. reflexivity.
  - reflexivity.
Defined.

Lemma register_then_login_round_trip_witness :
  ∃ r2 w2,
    login demo_config 10 demo_login registered_world = (Ok r2, w2) ∧
    ar_user r2 !! "id" = Some (JStr "u1") ∧
    ar_user r2 !! "email" = Some (JStr "a@b.c") ∧
    ar_user r2 !! "role" = Some (JStr "BARBER") ∧
    (∀ t, t < 10 + FIFTEEN_MINUTES →
          verifyAccessToken demo_config (accessToken (ar_tokens r2)) t = Ok demo_payload) ∧
    (∀ t, t < 10 + SEVEN_DAYS →
          verifyRefreshToken demo_config (refreshToken (ar_tokens r2)) t = Ok demo_payload).
Proof.
  eapply (register_then_login_round_trip demo_config 0 "salt" demo_defaults
            demo_registration empty_world _ registered_world 10).
  vm_compute. reflexivity.
Defined.

Lemma freeSlots_within_hours_and_free_witness :
  540 <= 660 ∧ 720 <= 1020 ∧ 720 - 660 = 60 ∧ (660 - 540) `mod` 30 = 0 ∧
  ∀ b, b ∈ demo_bookings → ¬ overlaps 660 720 b.
Proof.
  apply (freeSlots_within_hours_and_free 30 nine_to_five 60 demo_bookings
           {| slot_start := 660; slot_end := 720; slot_free := true |}).
  - lia.
  - vm_compute. left.
Defined.

Lemma errorHandler_status_mapping_witness :
  status (errorHandler (Some "production") prisma_error) = 400 ∧
  b_message (body (errorHandler (Some "production") prisma_error)) = Some "Database error" ∧
  status (errorHandler (Some "production") (new_Error "Invalid credentials")) = 500.
Proof.
  destruct (errorHandler_status_mapping (Some "production") prisma_error)
    as (_ & _ & Hdb & _).
  destruct (errorHandler_status_mapping (Some "production") (new_Error "Invalid credentials"))
    as (_ & _ & _ & Hother & _).
  split; [exact (proj1 (Hdb eq_refl)) |]. split; [exact (proj2 (Hdb eq_refl)) |].
  apply Hother; discriminate.
Defined.

Lemma refresh_issues_iff_verified_stored_and_user_exists_witness :
  is_Some (issued_tokens
             (refreshToken_controller demo_config 5 (Some demo_refresh_token)
                registered_world).1) ∧
  refreshToken_controller demo_config 5 None registered_world =
    (Respond {| status := 400; body := message_body "Refresh token required" |},
     registered_world).
Proof.
  destruct (refresh_issues_iff_verified_stored_and_user_exists demo_config 5
              (Some demo_refresh_token) registered_world) as ([_ Hissue] & _ & _).
  destruct (refresh_issues_iff_verified_stored_and_user_exists demo_config 5
              None registered_world) as (_ & Hmissing & _).
  split; [| exact (Hmissing eq_refl)].
  apply Hissue. exists demo_refresh_token, demo_payload.
  split; [reflexivity |]. split; [vm_compute; reflexivity |].
  split; [vm_compute; reflexivity |]. vm_compute. eauto.
Defined.

(** The claim C5 as stated fails on a store whose Redis holds the refresh
    token of a user whose row is gone: the token verifies and equals the
    stored one, yet [refreshTokens] throws 'User not found', no tokens are
    issued and the answer is 500. *)
Lemma refresh_of_orphan_token_issues_nothing :
  verifyRefreshToken demo_config demo_refresh_token 5 = Ok demo_payload ∧
  redis_get (refresh_key (userId demo_payload)) 5 orphan_world = Some demo_refresh_token ∧
  refreshToken_controller demo_config 5 (Some demo_refresh_token) orphan_world =
    (Next (new_Error "User not found"), orphan_world) ∧
  issued_tokens (refreshToken_controller demo_config 5 (Some demo_refresh_token)
                   orphan_world).1 = None ∧
  status (post_refresh demo_config None 5 (Some demo_refresh_token) orphan_world).1 = 500.
Proof. repeat split; vm_compute; reflexivity. Qed.

Lemma password_hashed_on_register_checked_on_login_witness :
  (∃ u, users registered_world = users empty_world ++ [u] ∧
        findUnique_email "a@b.c" registered_world = Some u ∧
        password u = bcrypt_hash "secret12" 12 "salt") ∧
  (∃ u, findUnique_email "a@b.c" registered_world = Some u ∧
        bcrypt_compare "secret12" (password u) = true).
Proof.
  destruct (password_hashed_on_register_checked_on_login demo_config) as [Hreg Hlog].
  split.
  - eapply (Hreg 0 "salt" demo_defaults demo_registration empty_world _ registered_world).
    vm_compute. reflexivity.
  - eapply (Hlog 10 demo_login registered_world).
    vm_compute. reflexivity.
Defined.

Lemma refresh_token_stored_for_seven_days_witness :
  redis registered_world !! refresh_key "u1" =
    Some {| r_value := demo_refresh_token; r_expires_at := 0 + 604800 |} ∧
  redis_tracks_ledger
    (run demo_config [OpLogin 10 demo_login; OpRefresh 20 "u1"; OpLogout "u1"]
       registered_world {[ "u1" := (demo_refresh_token, 0) ]}).1
    (run demo_config [OpLogin 10 demo_login; OpRefresh 20 "u1"; OpLogout "u1"]
       registered_world {[ "u1" := (demo_refresh_token, 0) ]}).2.
Proof.
  destruct (refresh_token_stored_for_seven_days demo_config) as (Hreg & _ & _ & Hrun).
  split.
  - eapply (Hreg 0 "salt" demo_defaults demo_registration empty_world
              {| ar_user := _; ar_tokens := generateTokens demo_config demo_payload 0 |}
              registered_world).
    vm_compute. reflexivity.
  - apply Hrun. intros uid e Hlook.
    destruct (decide (uid = "u1")) as [-> | Hne].
    + rewrite lookup_singleton_eq. vm_compute in Hlook. injection Hlook as <-.
      vm_compute. reflexivity.
    + exfalso. change (redis registered_world) with
        (<[refresh_key "u1" := {| r_value := demo_refresh_token;
                                   r_expires_at := 0 + SEVEN_DAYS |}]>
           (∅ : gmap string RedisEntry)) in Hlook.
      rewrite lookup_insert_ne, lookup_empty in Hlook; [discriminate |].
      intros Hk. apply refresh_key_inj in Hk. congruence.
Defined.

Lemma logout_blocks_refresh_witness :
  redis (logout "u1" registered_world) !! refresh_key "u1" = None ∧
  post_refresh demo_config None 5 (Some demo_refresh_token)
    (run demo_config
       [OpRegister 2 "salt" other_defaults other_registration;
        OpLogin 3 {| ld_email := "a@b.c"; ld_password := "wrong" |}]
       (logout "u1" registered_world) ∅).1 =
    ({| status := 403; body := message_body "Invalid refresh token" |},
     (run demo_config
        [OpRegister 2 "salt" other_defaults other_registration;
         OpLogin 3 {| ld_email := "a@b.c"; ld_password := "wrong" |}]
        (logout "u1" registered_world) ∅).1).
Proof.
  assert (Hnone : issues_none_for demo_config "u1"
            [OpRegister 2 "salt" other_defaults other_registration;
             OpLogin 3 {| ld_email := "a@b.c"; ld_password := "wrong" |}]
            (logout "u1" registered_world)).
  { split; [intros t; vm_compute; discriminate |].
    split; [intros t; vm_compute; discriminate | exact I]. }
  destruct (logout_blocks_refresh demo_config None "u1" registered_world _ ∅ Hnone)
    as (Habsent & _ & Hlive & _).
  split; [exact Habsent |].
  apply (Hlive 5 demo_refresh_token demo_payload); vm_compute; reflexivity.
Defined.

(** The claim C8 as stated fails once the presented token has expired:
    the refresh token issued at registration, presented seven days later
    after a logout, is answered 500, not 403. *)
Lemma expired_token_after_logout_answered_500 :
  (∃ r, register demo_config 0 "salt" demo_defaults demo_registration empty_world =
          (Ok r, registered_world) ∧
        refreshToken (ar_tokens r) = demo_refresh_token) ∧
  post_refresh demo_config None SEVEN_DAYS (Some demo_refresh_token)
    (logout "u1" registered_world) =
    ({| status := 500; body := message_body "Internal server error" |},
     logout "u1" registered_world) ∧
  status (post_refresh demo_config None SEVEN_DAYS (Some demo_refresh_token)
            (logout "u1" registered_world)).1 ≠ 403.
Proof.
  split; [| split].
  - eexists. split; vm_compute; reflexivity.
  - vm_compute. reflexivity.
  - vm_compute. discriminate.
Qed.

Lemma login_failures_indistinguishable_witness :
  login demo_config 10 {| ld_email := "nobody@b.c"; ld_password := "secret12" |}
    registered_world = (Throw (new_Error "Invalid credentials"), registered_world) ∧
  login demo_config 10 {| ld_email := "a@b.c"; ld_password := "wrong" |}
    registered_world = (Throw (new_Error "Invalid credentials"), registered_world).
Proof.
  destruct (login_failures_indistinguishable demo_config 10
              {| ld_email := "nobody@b.c"; ld_password := "secret12" |} registered_world)
    as (Hunknown & _ & _).
  destruct (login_failures_indistinguishable demo_config 10
              {| ld_email := "a@b.c"; ld_password := "wrong" |} registered_world)
    as (_ & Hwrong & _).
  split.
  - apply Hunknown. vm_compute. reflexivity.
  - apply (Hwrong (new_row demo_defaults "salt" demo_registration));
      vm_compute; reflexivity.
Defined.


(** * Further properties of the authentication backend *)

Lemma findUnique_email_absent e w :
  findUnique_email e w = None → e ∉ email <$> users w.
Proof.
  intros Hnone Hin. apply list_elem_of_fmap in Hin as (u & -> & Hu).
  destruct (findUnique_email_present (email u) w u Hu eq_refl) as [v Hv].
  congruence.
Qed.

Lemma findUnique_id_present i w u :
  u ∈ users w → id u = i → ∃ v, findUnique_id i w = Some v ∧ id v = i.
Proof.
  unfold findUnique_id. intros Hin Heq.
  destruct (List.find _ (users w)) as [v|] eqn:Hf.
  - exists v. split; [reflexivity |].
    apply List.find_some in Hf as [_ Hv]. by apply bool_decide_eq_true in Hv.
  - apply list_elem_of_In in Hin.
    pose proof (List.find_none _ _ Hf u Hin) as Hno. simpl in Hno.
    apply bool_decide_eq_false in Hno. contradiction.
Qed.

Section Frame.
Context `{!JwtLib} `{!BcryptLib}.
Variable config : Config.

(** A service call leaves the table as it is or appends one row whose
    email no row had. *)
Lemma op_users op w :
  users (op_world config op w) = users w ∨
  ∃ u, users (op_world config op w) = users w ++ [u] ∧
       findUnique_email (email u) w = None.
Proof.
  destruct op as [now salt d data | now data | now uid | uid | uid]; simpl.
  - destruct (register config now salt d data w) as [[r|e] w1] eqn:Hr; simpl.
    + apply register_ok in Hr as (Hfree & Husers & _). right. eauto.
    + apply register_throw in Hr as ->. left. reflexivity.
  - destruct (login config now data w) as [[r|e] w1] eqn:Hr; simpl.
    + apply login_ok in Hr as (u & _ & _ & -> & _). left. reflexivity.
    + apply login_throw in Hr as ->. left. reflexivity.
  - destruct (refreshTokens config now uid w) as [[t|e] w1] eqn:Hr; simpl.
    + apply refreshTokens_ok in Hr as (u & _ & _ & _ & ->). left. reflexivity.
    + apply refreshTokens_throw in Hr as ->. left. reflexivity.
  - left. reflexivity.
  - left. reflexivity.
Qed.

(** X1: along every run of service calls the emails of the table stay
    pairwise distinct: [register] never adds a row whose email a row
    already has. *)
Theorem run_keeps_emails_unique ops w g :
  emails_unique w → emails_unique (run config ops w g).1.
Proof.
  revert w g. induction ops as [|op ops IH]; simpl; intros w g Huniq; [exact Huniq |].
  apply IH. unfold emails_unique in *.
  destruct (op_users op w) as [-> | (u & -> & Hfree)]; [exact Huniq |].
  rewrite fmap_app. simpl. apply NoDup_app. split; [exact Huniq |]. split.
  - intros e He Hin. apply list_elem_of_singleton in Hin as ->.
    by apply (findUnique_email_absent (email u) w).
  - apply NoDup_singleton.
Qed.

(** X2: no service call deletes or edits a row: the table before a run
    is a prefix of the table after it, and only [register] makes it grow. *)
Theorem run_only_appends_rows ops w g :
  users w `prefix_of` users (run config ops w g).1 ∧
  (Forall (λ op, ∀ now salt d data, op ≠ OpRegister now salt d data) ops →
   users (run config ops w g).1 = users w).
Proof.
  split.
  - revert w g. induction ops as [|op ops IH]; simpl; intros w g; [reflexivity |].
    etrans; [| apply IH].
    destruct (op_users op w) as [-> | (u & -> & _)]; [reflexivity |].
    by apply prefix_app_r.
  - revert w g. induction ops as [|op ops IH]; simpl; intros w g Hall; [reflexivity |].
    apply Forall_cons in Hall as [Hop Hrest]. rewrite (IH _ _ Hrest).
    destruct op as [now salt d data | now data | now uid | uid | uid]; simpl.
    + exfalso. by apply (Hop now salt d data).
    + destruct (login config now data w) as [[r|e] w1] eqn:Hr; simpl.
      * apply login_ok in Hr as (u & _ & _ & -> & _). reflexivity.
      * apply login_throw in Hr as ->. reflexivity.
    + destruct (refreshTokens config now uid w) as [[t|e] w1] eqn:Hr; simpl.
      * apply refreshTokens_ok in Hr as (u & _ & _ & _ & ->). reflexivity.
      * apply refreshTokens_throw in Hr as ->. reflexivity.
    + reflexivity.
    + reflexivity.
Qed.

(** X3: a service call touches one Redis key at most, the refresh key of
    the user it is for: [register] that of the new id, [login] that of the
    row with the email, [refreshTokens] and [logout] that of their
    argument.  Every other key, so every other user's stored token, reads
    as before. *)
Theorem service_calls_touch_one_key k w :
  (∀ now salt d data,
     k ≠ refresh_key (new_id d) →
     redis (register config now salt d data w).2 !! k = redis w !! k) ∧
  (∀ now data,
     (∀ u, findUnique_email (ld_email data) w = Some u → k ≠ refresh_key (id u)) →
     redis (login config now data w).2 !! k = redis w !! k) ∧
  (∀ now uid,
     k ≠ refresh_key uid →
     redis (refreshTokens config now uid w).2 !! k = redis w !! k) ∧
  (∀ uid,
     k ≠ refresh_key uid →
     redis (logout uid w) !! k = redis w !! k).
Proof.
  repeat split.
  - intros now salt d data Hk.
    destruct (register config now salt d data w) as [[r|e] w1] eqn:Hr; simpl.
    + apply register_ok in Hr as (_ & _ & -> & _). by rewrite lookup_insert_ne.
    + apply register_throw in Hr as ->. reflexivity.
  - intros now data Hk.
    destruct (login config now data w) as [[r|e] w1] eqn:Hr; simpl.
    + apply login_ok in Hr as (u & Hfind & _ & -> & _). simpl.
      rewrite lookup_insert_ne; [reflexivity |]. intros Heq. by apply (Hk u Hfind).
    + apply login_throw in Hr as ->. reflexivity.
  - intros now uid Hk.
    destruct (refreshTokens config now uid w) as [[t|e] w1] eqn:Hr; simpl.
    + apply refreshTokens_ok in Hr as (u & _ & _ & _ & ->). simpl.
      by rewrite lookup_insert_ne.
    + apply refreshTokens_throw in Hr as ->. reflexivity.
  - intros uid Hk. unfold logout, redis_del. simpl. by rewrite lookup_delete_ne.
Qed.

End Frame.

(** ** What the routes answer *)

Section Routes.
Context `{!JwtLib} `{!BcryptLib}.
Variable config : Config.

Lemma login_throw_error now data w e w1 :
  login config now data w = (Throw e, w1) → e = new_Error "Invalid credentials".
Proof.
  unfold login. destruct (findUnique_email _ w); [| congruence].
  destruct (bcrypt_compare _ _); [discriminate | congruence].
Qed.

(** X4: a login the service turns down, for an unknown email or a wrong
    password alike, reaches the client as status 500 'Internal server
    error' (the controller hands the plain Error to the error middleware,
    which knows no 401 for it); 'Invalid credentials' shows only as
    [details] when NODE_ENV is 'development'.  A registration with a taken
    email is answered the same way.  Neither changes the store. *)
Theorem rejected_credentials_answered_500 node_env now w :
  (∀ data e w1,
     login config now data w = (Throw e, w1) →
     login_controller config now data w = (Next (new_Error "Invalid credentials"), w) ∧
     finish node_env (login_controller config now data w).1 =
       {| status := 500;
          body := {| b_message := Some "Internal server error";
                     b_details := if bool_decide (node_env = Some "development")
                                  then Some "Invalid credentials" else None;
                     b_user := None; b_tokens := None |} |}) ∧
  (∀ salt d data u,
     u ∈ users w → email u = rd_email data →
     (register_controller config now salt d data w).2 = w ∧
     finish node_env (register_controller config now salt d data w).1 =
       {| status := 500;
          body := {| b_message := Some "Internal server error";
                     b_details := if bool_decide (node_env = Some "development")
                                  then Some "User already exists with this email" else None;
                     b_user := None; b_tokens := None |} |}).
Proof.
  split.
  - intros data e w1 Hr.
    pose proof (login_throw_error _ _ _ _ _ Hr) as ->.
    pose proof (login_throw _ _ _ _ _ _ Hr) as ->.
    unfold login_controller. rewrite Hr. split; reflexivity.
  - intros salt d data u Hin Hmail.
    destruct (findUnique_email_present _ _ _ Hin Hmail) as [x Hx].
    unfold register_controller, register. rewrite Hx. split; reflexivity.
Qed.

(** X5: [AuthController.logout] answers 401 and changes nothing without
    an authenticated user; with one it answers 200, leaves the table
    alone, and Redis ends without that user's refresh key and otherwise as
    it was.  Logging out twice is logging out once. *)
Theorem logout_controller_effect w :
  logout_controller None w =
    (Respond {| status := 401; body := message_body "Authentication required" |}, w) ∧
  (∀ p,
     (logout_controller (Some p) w).1 =
       Respond {| status := 200; body := message_body "Logged out successfully" |} ∧
     users (logout_controller (Some p) w).2 = users w ∧
     redis (logout_controller (Some p) w).2 = delete (refresh_key (userId p)) (redis w) ∧
     (∀ now, redis_get (refresh_key (userId p)) now (logout_controller (Some p) w).2 = None) ∧
     logout_controller (Some p) (logout_controller (Some p) w).2 =
       logout_controller (Some p) w).
Proof.
  split; [reflexivity |]. intros p. simpl.
  split; [reflexivity |]. split; [reflexivity |]. split; [reflexivity |]. split.
  - intros now. unfold redis_get, logout, redis_del. simpl.
    by rewrite lookup_delete_eq.
  - unfold logout, redis_del. simpl. f_equal. f_equal.
    apply map_eq. intros k. destruct (decide (k = refresh_key (userId p))) as [-> | Hk].
    + by rewrite !lookup_delete_eq.
    + by rewrite !lookup_delete_ne.
Qed.

(** X6: [AuthController.getProfile] never changes the store; it answers
    401 without an authenticated user, 404 when no row has the user's id,
    and 200 with a user object exactly when a row has it. *)
Theorem getProfile_controller_cases req_user w :
  (getProfile_controller req_user w).2 = w ∧
  (req_user = None →
   (getProfile_controller req_user w).1 =
     Respond {| status := 401; body := message_body "Authentication required" |}) ∧
  (∀ p, req_user = Some p → findUnique_id (userId p) w = None →
   (getProfile_controller req_user w).1 =
     Respond {| status := 404; body := message_body "User not found" |}) ∧
  (is_Some (outcome_user (getProfile_controller req_user w).1) ↔
   ∃ p u, req_user = Some p ∧ u ∈ users w ∧ id u = userId p).
Proof.
  unfold getProfile_controller, getProfile.
  destruct req_user as [p|].
  - destruct (findUnique_id (userId p) w) as [u|] eqn:Hfind; simpl.
    + split; [reflexivity |]. split; [discriminate |]. split; [congruence |].
      apply findUnique_id_found in Hfind as [Hin Hid]. split; [| eauto].
      intros _. exists p, u. auto.
    + split; [reflexivity |]. split; [discriminate |]. split; [reflexivity |].
      split; [intros [? [=]] |].
      intros (p' & u & [= <-] & Hin & Hid).
      destruct (findUnique_id_present _ _ _ Hin Hid) as (v & Hv & _). congruence.
  - simpl. split; [reflexivity |]. split; [reflexivity |]. split; [discriminate |].
    split; [intros [? [=]] | intros (p & u & [=] & _)].
Qed.

(** X7: [generateTokens] round trip.  The access token verifies under the
    access secret with the payload it was signed for during the fifteen
    minutes after its issue and throws TokenExpiredError from then on; the
    refresh token does the same under the refresh secret with seven days;
    so whenever the access token is still good the refresh token is too. *)
Theorem generateTokens_lifetimes p now t :
  verifyAccessToken config (accessToken (generateTokens config p now)) t =
    (if bool_decide (t < now + 900) then Ok p else Throw TokenExpiredError) ∧
  verifyRefreshToken config (refreshToken (generateTokens config p now)) t =
    (if bool_decide (t < now + 604800) then Ok p else Throw TokenExpiredError) ∧
  (verifyAccessToken config (accessToken (generateTokens config p now)) t = Ok p →
   verifyRefreshToken config (refreshToken (generateTokens config p now)) t = Ok p).
Proof.
  assert (Ha : verifyAccessToken config (accessToken (generateTokens config p now)) t =
    (if bool_decide (t < now + 900) then Ok p else Throw TokenExpiredError)).
  { unfold verifyAccessToken, generateTokens. simpl. rewrite jwt_verify_sign.
    change FIFTEEN_MINUTES with 900. case_bool_decide; reflexivity. }
  assert (Hr : verifyRefreshToken config (refreshToken (generateTokens config p now)) t =
    (if bool_decide (t < now + 604800) then Ok p else Throw TokenExpiredError)).
  { rewrite verifyRefreshToken_issued. reflexivity. }
  split; [exact Ha |]. split; [exact Hr |].
  rewrite Ha, Hr. repeat case_bool_decide; try discriminate; try reflexivity. lia.
Qed.

(** Refresh tokens signed at different instants are different strings. *)
Lemma refresh_tokens_differ p p' iat iat' :
  iat ≠ iat' →
  refreshToken (generateTokens config p iat) ≠ refreshToken (generateTokens config p' iat').
Proof.
  intros Hne Heq.
  pose proof (verifyRefreshToken_issued config p iat (Z.min iat iat' + SEVEN_DAYS)) as H1.
  pose proof (verifyRefreshToken_issued config p' iat' (Z.min iat iat' + SEVEN_DAYS)) as H2.
  rewrite Heq in H1. rewrite H1 in H2.
  repeat case_bool_decide; try discriminate; lia.
Qed.

(** X8: a login followed by a refresh.  The refresh token a successful
    login returns is redeemed by [POST /refresh] at any instant of the
    seven days after the login (no other call in between): the answer is
    200 with new tokens that verify with the user's id, and Redis then
    holds the new refresh token.  From the seventh day on the same request
    is answered 500 and changes nothing. *)
Theorem login_then_refresh node_env now data w r w1 t :
  login config now data w = (Ok r, w1) →
  (t < now + SEVEN_DAYS →
   ∃ u toks w2,
     findUnique_email (ld_email data) w = Some u ∧
     post_refresh config node_env t (Some (refreshToken (ar_tokens r))) w1 =
       ({| status := 200;
           body := {| b_message := Some "Tokens refreshed successfully";
                      b_details := None; b_user := None; b_tokens := Some toks |} |}, w2) ∧
     (∃ p, verifyAccessToken config (accessToken toks) t = Ok p ∧ userId p = id u) ∧
     (∃ p, verifyRefreshToken config (refreshToken toks) t = Ok p ∧ userId p = id u) ∧
     redis_get (refresh_key (id u)) t w2 = Some (refreshToken toks)) ∧
  (now + SEVEN_DAYS <= t →
   post_refresh config node_env t (Some (refreshToken (ar_tokens r))) w1 =
     (errorHandler node_env TokenExpiredError, w1) ∧
   status (errorHandler node_env TokenExpiredError) = 500).
Proof.
  intros Hlog. apply login_ok in Hlog as (u & Hfind & _ & Hw1 & ->).
  cbv zeta in Hw1. simpl ar_tokens.
  pose proof (issued_refresh_token_nonempty config (payload_of u) now) as Hne.
  pose proof (verifyRefreshToken_issued config (payload_of u) now t) as Hv.
  split.
  - intros Hlive. rewrite bool_decide_eq_true_2 in Hv by exact Hlive.
    pose proof (findUnique_email_found _ _ _ Hfind) as [Hin _].
    assert (Hin1 : u ∈ users w1) by (rewrite Hw1; exact Hin).
    destruct (findUnique_id_present (id u) w1 u Hin1 eq_refl) as (v & Hv1 & Hid).
    exists u, (generateTokens config (payload_of v) t),
      (redis_set (refresh_key (id u))
         (refreshToken (generateTokens config (payload_of v) t)) SEVEN_DAYS t w1).
    split; [exact Hfind |]. split.
    + unfold post_refresh, refreshToken_controller, falsy.
      rewrite bool_decide_eq_false_2 by exact Hne. rewrite Hv. simpl userId.
      assert (Hget : redis_get (refresh_key (id u)) t w1 =
                Some (refreshToken (generateTokens config (payload_of u) now))).
      { rewrite Hw1. unfold redis_get, redis_set. simpl redis.
        rewrite lookup_insert_eq. simpl. by rewrite bool_decide_eq_true_2. }
      rewrite Hget. rewrite bool_decide_eq_false_2 by exact Hne.
      rewrite bool_decide_eq_true_2 by reflexivity. simpl.
      unfold refreshTokens. rewrite Hv1. rewrite Hid. reflexivity.
    + split; [| split].
      * exists (payload_of v). split; [| exact Hid].
        unfold verifyAccessToken, generateTokens. simpl. rewrite jwt_verify_sign.
        rewrite bool_decide_eq_true_2; [reflexivity | unfold FIFTEEN_MINUTES; lia].
      * exists (payload_of v). split; [| exact Hid].
        rewrite verifyRefreshToken_issued.
        rewrite bool_decide_eq_true_2; [reflexivity | unfold SEVEN_DAYS; lia].
      * unfold redis_get, redis_set. simpl redis. rewrite lookup_insert_eq. simpl.
        rewrite bool_decide_eq_true_2; [reflexivity | unfold SEVEN_DAYS; lia].
  - intros Hlate. rewrite bool_decide_eq_false_2 in Hv by lia.
    split; [| apply errorHandler_jwt_errors].
    unfold post_refresh, refreshToken_controller, falsy.
    rewrite bool_decide_eq_false_2 by exact Hne. rewrite Hv. reflexivity.
Qed.

(** X9: rotation.  When [POST /refresh] accepts a refresh token that was
    issued at an earlier instant, the token it stores is a different
    string, and presenting the old token again right after, at any instant,
    yields no tokens and changes nothing: 403 while the old token has not
    expired, 500 from then on. *)
Theorem refresh_rotates_token node_env p iat now toks w w1 now' :
  iat < now →
  refreshToken_controller config now (Some (refreshToken (generateTokens config p iat))) w =
    (Respond {| status := 200;
                body := {| b_message := Some "Tokens refreshed successfully";
                           b_details := None; b_user := None; b_tokens := Some toks |} |},
     w1) →
  refreshToken toks ≠ refreshToken (generateTokens config p iat) ∧
  redis w1 !! refresh_key (userId p) =
    Some {| r_value := refreshToken toks; r_expires_at := now + SEVEN_DAYS |} ∧
  post_refresh config node_env now' (Some (refreshToken (generateTokens config p iat))) w1 =
    (if bool_decide (now' < iat + SEVEN_DAYS)
     then {| status := 403; body := message_body "Invalid refresh token" |}
     else errorHandler node_env TokenExpiredError,
     w1).
Proof.
  intros Hiat Hctl.
  pose proof (issued_refresh_token_nonempty config p iat) as Hne.
  assert (Hw1 : ∃ v, toks = generateTokens config (payload_of v) now ∧
            w1 = redis_set (refresh_key (userId p)) (refreshToken toks) SEVEN_DAYS now w).
  { unfold refreshToken_controller, falsy in Hctl.
    rewrite bool_decide_eq_false_2 in Hctl by exact Hne.
    rewrite verifyRefreshToken_issued in Hctl.
    case_bool_decide; [| discriminate].
    destruct (redis_get (refresh_key (userId p)) now w) as [s|]; [| discriminate].
    destruct (bool_decide (s = "") || _); [discriminate |].
    destruct (refreshTokens config now (userId p) w) as [[t0|e] w'] eqn:Hr; [| discriminate].
    injection Hctl as <- <-.
    apply refreshTokens_ok in Hr as (v & _ & _ & -> & ->). eauto. }
  destruct Hw1 as (v & Htoks & ->).
  assert (Hdiff : refreshToken toks ≠ refreshToken (generateTokens config p iat)).
  { rewrite Htoks. apply refresh_tokens_differ. lia. }
  split; [exact Hdiff |]. split; [simpl; apply lookup_insert_eq |].
  pose proof (verifyRefreshToken_issued config p iat now') as Hv.
  case_bool_decide as Hlive.
  - unfold post_refresh.
    rewrite (refresh_without_stored_token config now' _ p); [reflexivity | exact Hv |].
    unfold redis_get, redis_set. simpl redis. rewrite lookup_insert_eq.
    cbn [r_expires_at r_value userId].
    case_bool_decide; [| discriminate]. intros [= Heq]. by apply Hdiff.
  - unfold post_refresh, refreshToken_controller, falsy.
    rewrite bool_decide_eq_false_2 by exact Hne. rewrite Hv. reflexivity.
Qed.

End Routes.

(** * Validation rules *)

(** ** The matcher decides the language *)

Lemma lang_void_inv s : lang Void s ↔ False.
Proof. split; [inversion 1 | contradiction]. Qed.

Lemma lang_eps_inv s : lang Eps s ↔ s = "".
Proof. split; [by inversion 1 | intros ->; constructor]. Qed.

Lemma lang_cls_inv f s : lang (Cls f) s ↔ ∃ c, s = String c "" ∧ f c = true.
Proof.
  split; [inversion 1; subst; eauto |].
  intros (c & -> & Hc). by constructor.
Qed.

Lemma lang_seq_inv r1 r2 s :
  lang (Seq r1 r2) s ↔ ∃ s1 s2, s = s1 +:+ s2 ∧ lang r1 s1 ∧ lang r2 s2.
Proof.
  split; [inversion 1; subst; eauto |].
  intros (s1 & s2 & -> & H1 & H2). by constructor.
Qed.

Lemma lang_alt_inv r1 r2 s : lang (Alt r1 r2) s ↔ lang r1 s ∨ lang r2 s.
Proof.
  split; [inversion 1; subst; auto |].
  intros [H1 | H2]; [by apply lang_alt_l | by apply lang_alt_r].
Qed.

Lemma lang_opt_inv r s : lang (Opt r) s ↔ lang r s ∨ s = "".
Proof. unfold Opt. by rewrite lang_alt_inv, lang_eps_inv. Qed.

Lemma lang_chr_inv c s : lang (Chr c) s ↔ s = String c "".
Proof.
  unfold Chr. rewrite lang_cls_inv. split.
  - intros (x & -> & Hx). apply bool_decide_eq_true in Hx. by subst.
  - intros ->. exists c. split; [reflexivity | by apply bool_decide_eq_true].
Qed.

Lemma append_nil_l (s : string) : "" +:+ s = s.
Proof. reflexivity. Qed.

Lemma append_cons c (s1 s2 : string) : String c s1 +:+ s2 = String c (s1 +:+ s2).
Proof. reflexivity. Qed.

Create Rewrite HintDb strings.
#[local] Hint Rewrite append_nil_l append_cons : strings.

Lemma append_empty_inv (s1 s2 : string) : s1 +:+ s2 = "" → s1 = "" ∧ s2 = "".
Proof. destruct s1; simpl; [auto | discriminate]. Qed.

Lemma nullable_spec r : nullable r = true ↔ lang r "".
Proof.
  split.
  - induction r as [| |f|r1 IH1 r2 IH2|r1 IH1 r2 IH2|r IH]; simpl; intros Hn.
    + discriminate.
    + constructor.
    + discriminate.
    + apply andb_true_iff in Hn as [H1 H2].
      change "" with ("" +:+ ""). constructor; auto.
    + apply orb_true_iff in Hn as [H1 | H2];
        [apply lang_alt_l | apply lang_alt_r]; auto.
    + constructor.
  - intros Hl. remember "" as s eqn:Hs.
    induction Hl as [|f c Hc|r1 r2 s1 s2 H1 IH1 H2 IH2|r1 r2 s H1 IH1|r1 r2 s H2 IH2
                     |r|r s1 s2 H1 IH1 H2 IH2]; simpl; try reflexivity.
    + discriminate.
    + apply append_empty_inv in Hs as [-> ->]. rewrite IH1, IH2; reflexivity.
    + rewrite IH1; [reflexivity | exact Hs].
    + rewrite IH2; [apply orb_true_r | exact Hs].
Qed.

(** A non-empty string of [r*] starts with a non-empty string of [r]. *)
Lemma lang_star_cons_inv r c s :
  lang (Star r) (String c s) →
  ∃ s1 s2, s = s1 +:+ s2 ∧ lang r (String c s1) ∧ lang (Star r) s2.
Proof.
  intros Hl. remember (Star r) as r' eqn:Hr. remember (String c s) as s' eqn:Hs.
  revert s Hs.
  induction Hl as [|f x Hx|r1 r2 s1 s2 H1 IH1 H2 IH2|r1 r2 s0 H1 IH1|r1 r2 s0 H2 IH2
                   |r0|r0 s1 s2 H1 IH1 H2 IH2]; intros s Hs; try discriminate.
  injection Hr as ->. destruct s1 as [|x s1]; simpl in Hs.
  - apply IH2; [reflexivity | exact Hs].
  - injection Hs as -> <-. eauto.
Qed.

Lemma lang_deriv r : ∀ c s, lang (deriv c r) s ↔ lang r (String c s).
Proof.
  induction r as [| |f|r1 IH1 r2 IH2|r1 IH1 r2 IH2|r IH]; intros c s; simpl.
  - by rewrite !lang_void_inv.
  - rewrite lang_void_inv, lang_eps_inv. split; [contradiction | discriminate].
  - rewrite lang_cls_inv. destruct (f c) eqn:Hc.
    + rewrite lang_eps_inv. split.
      * intros ->. eauto.
      * intros (x & [= -> ->] & _). reflexivity.
    + rewrite lang_void_inv. split; [contradiction |].
      intros (x & [= -> ->] & Hx). congruence.
  - assert (Hleft : lang (Seq (deriv c r1) r2) s ↔
              ∃ s1 s2, s = s1 +:+ s2 ∧ lang r1 (String c s1) ∧ lang r2 s2).
    { rewrite lang_seq_inv. split; intros (s1 & s2 & -> & H1 & H2);
        exists s1, s2; (split; [reflexivity |]); (split; [by apply IH1 | exact H2]). }
    rewrite (lang_seq_inv r1 r2). destruct (nullable r1) eqn:Hn.
    + rewrite lang_alt_inv, Hleft, IH2. split.
      * intros [(s1 & s2 & -> & H1 & H2) | H2].
        -- exists (String c s1), s2. auto.
        -- exists "", (String c s). split; [reflexivity |].
           split; [by apply nullable_spec | exact H2].
      * intros (s1 & s2 & Hs & H1 & H2). destruct s1 as [|x s1]; simpl in Hs.
        -- right. by rewrite Hs.
        -- injection Hs as -> ->. left. eauto.
    + rewrite Hleft. split.
      * intros (s1 & s2 & -> & H1 & H2). exists (String c s1), s2. auto.
      * intros (s1 & s2 & Hs & H1 & H2). destruct s1 as [|x s1]; simpl in Hs.
        -- apply nullable_spec in H1. congruence.
        -- injection Hs as -> ->. eauto.
  - by rewrite !lang_alt_inv, IH1, IH2.
  - rewrite lang_seq_inv. split.
    + intros (s1 & s2 & -> & H1 & H2). apply IH in H1.
      change (String c (s1 +:+ s2)) with (String c s1 +:+ s2). by constructor.
    + intros Hl. apply lang_star_cons_inv in Hl as (s1 & s2 & -> & H1 & H2).
      exists s1, s2. split; [reflexivity |]. split; [by apply IH | exact H2].
Qed.

Lemma matches_spec s : ∀ r, matches r s = true ↔ lang r s.
Proof.
  induction s as [|c s IH]; intros r; simpl.
  - apply nullable_spec.
  - rewrite IH. apply lang_deriv.
Qed.

(** ** Classes of characters along a string *)

Lemma lang_star_any s : lang (Star AnyChar) s.
Proof.
  induction s as [|c s IH]; [constructor |].
  change (String c s) with (String c "" +:+ s).
  constructor; [by constructor | exact IH].
Qed.

(** [r*] over a class: every character is of the class. *)
Lemma lang_star_cls f s :
  lang (Star (Cls f)) s ↔ ∀ s1 c s2, s = s1 +:+ String c s2 → f c = true.
Proof.
  split.
  - revert f. induction s as [|c s IH]; intros f Hl s1 x s2 Hs.
    + destruct s1; discriminate.
    + apply lang_star_cons_inv in Hl as (t1 & t2 & -> & H1 & H2).
      apply lang_cls_inv in H1 as (y & [= -> ->] & Hy).
      autorewrite with strings in *.
      destruct s1 as [|z s1]; autorewrite with strings in Hs.
      * injection Hs as -> ->. exact Hy.
      * injection Hs as -> ->. by apply (IH f H2 s1 x s2).
  - induction s as [|c s IH]; intros Hall; [constructor |].
    change (String c s) with (String c "" +:+ s). constructor.
    + constructor. by apply (Hall "" c s).
    + apply IH. intros s1 x s2 ->. by apply (Hall (String c s1) x s2).
Qed.

(** An unanchored test for a class: some character is of the class. *)
Lemma test_search_cls f s :
  test_search (Cls f) s = true ↔ ∃ s1 c s2, s = s1 +:+ String c s2 ∧ f c = true.
Proof.
  unfold test_search. rewrite matches_spec, lang_seq_inv. split.
  - intros (s1 & t & -> & _ & Ht).
    apply lang_seq_inv in Ht as (t1 & s2 & -> & Hc & _).
    apply lang_cls_inv in Hc as (c & -> & Hc). eauto.
  - intros (s1 & c & s2 & -> & Hc). exists s1, (String c s2).
    split; [reflexivity |]. split; [apply lang_star_any |].
    change (String c s2) with (String c "" +:+ s2).
    constructor; [by constructor | apply lang_star_any].
Qed.

Lemma append_assoc (s1 s2 s3 : string) : (s1 +:+ s2) +:+ s3 = s1 +:+ (s2 +:+ s3).
Proof.
  induction s1 as [|c s1 IH]; [reflexivity |].
  autorewrite with strings. by rewrite IH.
Qed.

Lemma append_length (s1 s2 : string) :
  String.length (s1 +:+ s2) = (String.length s1 + String.length s2)%nat.
Proof.
  induction s1 as [|c s1 IH]; [reflexivity |].
  autorewrite with strings. simpl. by rewrite IH.
Qed.

(** A lookahead [(?=.*[...])] at the start finds its character. *)
Lemma lookahead_finds f s :
  test_prefix (Seq (Star (Cls is_dot)) (Cls f)) s = true →
  ∃ s1 c s2, s = s1 +:+ String c s2 ∧ f c = true.
Proof.
  unfold test_prefix. rewrite matches_spec, lang_seq_inv.
  intros (t & s2 & -> & Ht & _).
  apply lang_seq_inv in Ht as (s1 & t1 & -> & _ & Hc).
  apply lang_cls_inv in Hc as (c & -> & Hc).
  exists s1, c, s2. rewrite append_assoc. auto.
Qed.

(** [r+] over a class: a non-empty string of characters of the class. *)
Lemma lang_plus_cls f s :
  lang (Plus (Cls f)) s ↔ s ≠ "" ∧ ∀ s1 c s2, s = s1 +:+ String c s2 → f c = true.
Proof.
  unfold Plus. rewrite lang_seq_inv. split.
  - intros (t & s2 & -> & Hc & Hs).
    apply lang_cls_inv in Hc as (c & -> & Hc). split; [discriminate |].
    apply lang_star_cls. change (String c "" +:+ s2) with (String c "" +:+ s2).
    constructor; [by constructor | exact Hs].
  - intros [Hne Hall]. destruct s as [|c s]; [contradiction |].
    exists (String c ""), s. split; [reflexivity |].
    apply lang_star_cls in Hall. apply lang_star_cons_inv in Hall as (t1 & t2 & -> & H1 & H2).
    apply lang_cls_inv in H1 as (y & [= -> ->] & Hy).
    split; [by constructor | exact H2].
Qed.

(** ** The password meter and the password rule of the form *)

(** A character is a lower-case letter, an upper-case letter, a digit, or
    none of the three. *)
Lemma first_char_counts c s :
  test_search (Cls is_lower) (String c s) = false →
  test_search (Cls is_upper) (String c s) = false →
  test_search (Cls is_digit) (String c s) = false →
  test_search (Cls is_symbol) (String c s) = true.
Proof.
  intros Hl Hu Hd. apply test_search_cls. exists "", c, s. split; [reflexivity |].
  assert (Hnot : ∀ f, test_search (Cls f) (String c s) = false → f c = false).
  { intros f Hf. destruct (f c) eqn:Hc; [| reflexivity].
    rewrite <- Hf. symmetry. apply test_search_cls. exists "", c, s. auto. }
  unfold is_symbol, is_alnum.
  by rewrite (Hnot _ Hl), (Hnot _ Hu), (Hnot _ Hd).
Qed.

(** X10: [getPasswordStrength] counts between 0 and 5 criteria; the
    empty password, and only it, gets strength 0 and the empty label; any
    other password meets at least one criterion, so a 'Very Weak' password
    has strength exactly 1; and the label is 'Strong' exactly from
    strength 4 on. *)
Theorem getPasswordStrength_scale password :
  0 <= strength (getPasswordStrength password) <= 5 ∧
  (password = "" ↔ label (getPasswordStrength password) = "") ∧
  (password = "" ↔ strength (getPasswordStrength password) = 0) ∧
  (label (getPasswordStrength password) = "Very Weak" ↔
   strength (getPasswordStrength password) = 1) ∧
  (label (getPasswordStrength password) = "Weak" ↔
   strength (getPasswordStrength password) = 2) ∧
  (label (getPasswordStrength password) = "Good" ↔
   strength (getPasswordStrength password) = 3) ∧
  (label (getPasswordStrength password) = "Strong" ↔
   4 <= strength (getPasswordStrength password)).
Proof.
  destruct password as [|c s].
  - simpl. repeat split; try lia; try discriminate; try reflexivity.
  - unfold getPasswordStrength, falsy.
    rewrite bool_decide_eq_false_2 by discriminate.
    pose proof (first_char_counts c s) as Hone.
    destruct (8 <=? String.length (String c s))%nat;
      destruct (test_search (Cls is_lower) (String c s));
      destruct (test_search (Cls is_upper) (String c s));
      destruct (test_search (Cls is_digit) (String c s));
      destruct (test_search (Cls is_symbol) (String c s));
      try (specialize (Hone eq_refl eq_refl eq_refl); discriminate);
      simpl; repeat split; try lia; try discriminate; try reflexivity.
Qed.

(** X11: a password the form's schema accepts (eight characters or more
    and the three lookaheads) meets at least four criteria of the meter:
    whenever the form validates, the meter reads 'Strong'. *)
Theorem accepted_password_is_strong email_rule data :
  form_schema email_rule data = true →
  4 <= strength (getPasswordStrength (f_password data)) ∧
  label (getPasswordStrength (f_password data)) = "Strong" ∧
  f_confirmPassword data = f_password data ∧
  f_agreeToTerms data = true.
Proof.
  unfold form_schema. rewrite !andb_true_iff.
  intros ((((((_ & _) & _) & Hpw) & _) & Hterms) & Hconfirm).
  apply bool_decide_eq_true in Hterms, Hconfirm.
  unfold password_rule, password_regex_test in Hpw.
  rewrite !andb_true_iff in Hpw. destruct Hpw as (Hlen & (Hl & Hu) & Hd).
  apply lookahead_finds, test_search_cls in Hl, Hu, Hd.
  assert (Hmeter : 4 <= strength (getPasswordStrength (f_password data)) ∧
                   label (getPasswordStrength (f_password data)) = "Strong").
  { unfold getPasswordStrength, falsy.
    destruct (f_password data) as [|c s]; [discriminate |].
    rewrite bool_decide_eq_false_2 by discriminate.
    rewrite Hlen, Hl, Hu, Hd. simpl.
    destruct (test_search (Cls is_symbol) (String c s)); simpl; split; (lia || reflexivity). }
  destruct Hmeter as [Hstrength Hlabel]. auto.
Qed.

(** ** The time pattern of [scheduleSchema] *)

(** A character of a digit range is the digit of a number of the range. *)
Lemma digit_range lo hi c :
  (lo <= hi)%nat → (hi <= 9)%nat →
  code_in (N.of_nat (48 + lo)) (N.of_nat (48 + hi)) c = true →
  ∃ n, (lo <= n <= hi)%nat ∧ c = digit_char n.
Proof.
  intros Hlo Hhi Hc. unfold code_in in Hc.
  apply andb_true_iff in Hc as [H1 H2].
  apply N.leb_le in H1, H2.
  exists (nat_of_ascii c - 48)%nat. unfold nat_of_ascii. split; [lia |].
  unfold digit_char.
  replace (48 + (N.to_nat (N_of_ascii c) - 48))%nat with (nat_of_ascii c)
    by (unfold nat_of_ascii; lia).
  symmetry. apply ascii_nat_embedding.
Qed.

Lemma two_digits_split t d :
  (d < 10)%nat → two_digits (10 * t + d) = String (digit_char t) (String (digit_char d) "").
Proof.
  intros Hd. unfold two_digits.
  rewrite <- (Nat.div_unique (10 * t + d) 10 t d) by lia.
  rewrite <- (Nat.mod_unique (10 * t + d) 10 t d) by lia.
  reflexivity.
Qed.

(** Every time of day, in both spellings, passes the pattern. *)
Lemma time_pattern_table :
  forallb (λ h, forallb (λ m,
      time_pattern (two_digits h +:+ ":" +:+ two_digits m)
      && (if (h <? 10)%nat
          then time_pattern (one_digit h +:+ ":" +:+ two_digits m) else true))
    (seq 0 60)) (seq 0 24) = true.
Proof. vm_compute. reflexivity. Qed.

(** X12: the pattern of [openTime] and [closeTime] accepts exactly the
    times of day: hours 0 to 23 written with two digits, or with one digit
    below 10, a colon, and minutes 00 to 59 with two digits. *)
Theorem time_pattern_accepts_times_of_day s :
  time_pattern s = true ↔
  ∃ h m : nat, (h < 24)%nat ∧ (m < 60)%nat ∧
    (s = two_digits h +:+ ":" +:+ two_digits m ∨
     ((h < 10)%nat ∧ s = one_digit h +:+ ":" +:+ two_digits m)).
Proof.
  split.
  - unfold time_pattern, test_whole, time_regex. rewrite matches_spec.
    intros Hl. apply lang_seq_inv in Hl as (hp & rest & -> & Hh & Hrest).
    apply lang_seq_inv in Hrest as (colon & mm & -> & Hcolon & Hmm).
    apply lang_chr_inv in Hcolon as ->.
    apply lang_seq_inv in Hmm as (m1 & m2 & -> & Hm1 & Hm2).
    apply lang_cls_inv in Hm1 as (c1 & -> & Hc1).
    apply lang_cls_inv in Hm2 as (c2 & -> & Hc2).
    apply (digit_range 0 5) in Hc1 as (a & Ha & ->); [| lia | lia].
    apply (digit_range 0 9) in Hc2 as (b & Hb & ->); [| lia | lia].
    assert (Hmin : two_digits (10 * a + b) =
              String (digit_char a) "" +:+ String (digit_char b) "")
      by (apply two_digits_split; lia).
    rewrite <- Hmin.
    apply lang_alt_inv in Hh as [Hh | Hh].
    + apply lang_seq_inv in Hh as (o & d & -> & Ho & Hd).
      apply lang_cls_inv in Hd as (cd & -> & Hcd).
      apply (digit_range 0 9) in Hcd as (n & Hn & ->); [| lia | lia].
      apply lang_opt_inv in Ho as [Ho | ->].
      * apply lang_cls_inv in Ho as (ct & -> & Hct).
        apply (digit_range 0 1) in Hct as (t & Ht & ->); [| lia | lia].
        exists (10 * t + n)%nat, (10 * a + b)%nat.
        split; [lia |]. split; [lia |]. left.
        rewrite (two_digits_split t n) by lia. reflexivity.
      * exists n, (10 * a + b)%nat. split; [lia |]. split; [lia |]. right.
        split; [lia | reflexivity].
    + apply lang_seq_inv in Hh as (two & d & -> & Htwo & Hd).
      apply lang_chr_inv in Htwo as ->.
      apply lang_cls_inv in Hd as (cd & -> & Hcd).
      apply (digit_range 0 3) in Hcd as (n & Hn & ->); [| lia | lia].
      exists (10 * 2 + n)%nat, (10 * a + b)%nat.
      split; [lia |]. split; [lia |]. left.
      rewrite (two_digits_split 2 n) by lia. reflexivity.
  - intros (h & m & Hh & Hm & Hs).
    pose proof time_pattern_table as Htable.
    rewrite forallb_forall in Htable.
    specialize (Htable h (proj2 (in_seq 24 0 h) ltac:(lia))).
    rewrite forallb_forall in Htable.
    specialize (Htable m (proj2 (in_seq 60 0 m) ltac:(lia))).
    apply andb_true_iff in Htable as [Htwo Hone].
    destruct Hs as [-> | [Hlt ->]]; [exact Htwo |].
    apply Nat.ltb_lt in Hlt. rewrite Hlt in Hone. exact Hone.
Qed.

(** * The frontend's auth store *)


Lemma dispatch_coherent a b :
  AuthStore.coherent (AuthStore.state b) →
  AuthStore.coherent (AuthStore.state (AuthStore.dispatch a b)).
Proof.
  unfold AuthStore.coherent. intros Hb.
  destruct a as [[r|e] | [r|e] | api | [u|e] | | loading]; simpl; try exact Hb;
    split; eauto; try discriminate; intros [? [=]].
Qed.

(** X13: from the initial state, whatever actions are dispatched and
    however their API calls end, the store says [isAuthenticated] exactly
    when it holds a user; and right after a [login], [register] or
    [getProfile] has run to its end, [isLoading] is false. *)
Theorem store_stays_coherent actions ls :
  AuthStore.coherent
    (AuthStore.state
       (AuthStore.dispatch_all actions
          {| AuthStore.state := AuthStore.initial; AuthStore.localStorage := ls |})) ∧
  (∀ b api, AuthStore.isLoading (AuthStore.state (AuthStore.login api b).1) = false) ∧
  (∀ b api, AuthStore.isLoading (AuthStore.state (AuthStore.register api b).1) = false) ∧
  (∀ b api, AuthStore.isLoading (AuthStore.state (AuthStore.getProfile api b)) = false).
Proof.
  split.
  - assert (Hgen : ∀ b, AuthStore.coherent (AuthStore.state b) →
              AuthStore.coherent (AuthStore.state (AuthStore.dispatch_all actions b))).
    { induction actions as [|a actions IH]; simpl; intros b Hb; [exact Hb |].
      apply IH, dispatch_coherent, Hb. }
    apply Hgen. unfold AuthStore.coherent. simpl.
    split; [discriminate | intros [? [=]]].
  - repeat split; intros b [r|e]; reflexivity.
Qed.




(** * Character-set patterns *)

(** X17: the form's phone rule accepts a missing or empty phone, and
    otherwise exactly an optional leading [+] followed by one or more
    characters that are digits, white space, [-], [(] or [)]; a lone [+]
    is turned down. *)
Theorem phone_rule_accepts p :
  (phone_rule p = true ↔
   p = None ∨ p = Some "" ∨
   ∃ body, (p = Some body ∨ p = Some (String "+" body)) ∧
           body ≠ "" ∧ every_char is_phone_char body) ∧
  phone_rule (Some "+") = false.
Proof.
  split; [| reflexivity].
  destruct p as [val|]; simpl; [| split; auto].
  unfold test_whole, phone_regex.
  rewrite orb_true_iff, bool_decide_eq_true, matches_spec, lang_seq_inv. split.
  - intros [-> | (o & body & -> & Ho & Hbody)]; [auto |].
    right. right. exists body. apply lang_plus_cls in Hbody as [Hne Hall].
    apply lang_opt_inv in Ho as [Ho | ->].
    + apply lang_chr_inv in Ho as ->. auto.
    + auto.
  - intros [[=] | [[= ->] | (body & Hp & Hne & Hall)]]; [auto |].
    right. assert (Hbody : lang (Plus (Cls is_phone_char)) body)
      by (apply lang_plus_cls; auto).
    destruct Hp as [[= ->] | [= ->]].
    + exists "", body. split; [reflexivity |]. split; [| exact Hbody].
      apply lang_opt_inv. auto.
    + exists "+", body. split; [reflexivity |]. split; [| exact Hbody].
      apply lang_opt_inv. left. by apply lang_chr_inv.
Qed.

(** X18: the form's name rule accepts exactly the strings of 2 to 50
    characters that are all letters or white space, and the slug pattern
    of [shopSchema] exactly the non-empty strings of lower-case letters,
    digits and hyphens. *)
Theorem name_and_slug_patterns s :
  (name_rule s = true ↔
   (2 <= String.length s <= 50)%nat ∧ every_char is_letter_or_space s) ∧
  (slug_pattern s = true ↔
   s ≠ "" ∧ every_char (λ c, is_lower c || is_digit c || bool_decide (c = "-"%char)) s).
Proof.
  split.
  - unfold name_rule, test_whole, name_regex.
    rewrite !andb_true_iff, matches_spec, lang_plus_cls, !Nat.leb_le. split.
    + intros [[H1 H2] [_ Hall]]. auto.
    + intros [[H1 H2] Hall]. repeat split; auto.
      intros ->. simpl in H1. lia.
  - unfold slug_pattern, test_whole, slug_regex.
    rewrite matches_spec. apply lang_plus_cls.
Qed.

(** * The further properties on concrete requests *)

Lemma run_keeps_emails_unique_witness :
  emails_unique
    (run demo_config
       [OpRegister 2 "salt" other_defaults other_registration;
        OpRegister 3 "salt" demo_defaults demo_registration;
        OpLogout "u1"]
       registered_world ∅).1.
Proof.
  apply (run_keeps_emails_unique demo_config).
  unfold emails_unique. rewrite registered_world_row. apply NoDup_singleton.
Defined.

Lemma login_then_refresh_witness :
  ∃ u toks w2,
    findUnique_email "a@b.c" registered_world = Some u ∧
    post_refresh demo_config None 20
      (Some (refreshToken (generateTokens demo_config demo_payload 10)))
      (login demo_config 10 demo_login registered_world).2 =
      ({| status := 200;
          body := {| b_message := Some "Tokens refreshed successfully";
                     b_details := None; b_user := None; b_tokens := Some toks |} |}, w2) ∧
    (∃ p, verifyAccessToken demo_config (accessToken toks) 20 = Ok p ∧ userId p = id u) ∧
    (∃ p, verifyRefreshToken demo_config (refreshToken toks) 20 = Ok p ∧ userId p = id u) ∧
    redis_get (refresh_key (id u)) 20 w2 = Some (refreshToken toks).
Proof.
  assert (Hlog : login demo_config 10 demo_login registered_world =
            (Ok {| ar_user := without_password
                                (row_object (new_row demo_defaults "salt" demo_registration));
                   ar_tokens := generateTokens demo_config demo_payload 10 |},
             (login demo_config 10 demo_login registered_world).2))
    by (vm_compute; reflexivity).
  destruct (login_then_refresh demo_config None 10 demo_login registered_world _ _ 20 Hlog)
    as [Hlive _].
  apply Hlive. unfold SEVEN_DAYS. lia.
Defined.

Lemma refresh_rotates_token_witness :
  post_refresh demo_config None 6 (Some demo_refresh_token)
    (refreshToken_controller demo_config 5 (Some demo_refresh_token) registered_world).2 =
    ({| status := 403; body := message_body "Invalid refresh token" |},
     (refreshToken_controller demo_config 5 (Some demo_refresh_token) registered_world).2).
Proof.
  assert (Hiat : 0 < 5) by lia.
  assert (Hctl : refreshToken_controller demo_config 5
                   (Some (refreshToken (generateTokens demo_config demo_payload 0)))
                   registered_world =
            (Respond {| status := 200;
                        body := {| b_message := Some "Tokens refreshed successfully";
                                   b_details := None; b_user := None;
                                   b_tokens := Some (generateTokens demo_config demo_payload 5) |} |},
             (refreshToken_controller demo_config 5 (Some demo_refresh_token)
                registered_world).2))
    by (vm_compute; reflexivity).
  destruct (refresh_rotates_token demo_config None demo_payload 0 5 _ registered_world _ 6
              Hiat Hctl) as (_ & _ & Hreplay).
  exact Hreplay.
Defined.

Lemma accepted_password_is_strong_witness :
  4 <= strength (getPasswordStrength "Secret12") ∧
  label (getPasswordStrength "Secret12") = "Strong" ∧
  f_confirmPassword demo_form = "Secret12" ∧
  f_agreeToTerms demo_form = true.
Proof.
  apply (accepted_password_is_strong (λ _, true) demo_form).
  vm_compute. reflexivity.
Defined.
